(** * docs/background/plot_bgcube_true_reco.py

    A shallow embedding of the script that compares two background cube
    models, and the properties of its helpers [power_law] and
    [int_power_law], of the normalisation of the first cube to the second
    and of the assembly of the two spectral panels.

    Numbers.  The script computes with IEEE doubles.  The embedding
    idealises them: a finite double is a real number, rounding and overflow
    are left out, and the non-finite doubles (inf, -inf, nan) are one value
    [NonFinite].  numpy does not raise on a division by zero or an invalid
    power, it warns and yields a non-finite value; scalar Python raises
    [ZeroDivisionError].  Both behaviours are kept apart: numpy operations
    return [npfloat], Python-level failures are exceptions of the [result]
    monad. *)

From Stdlib Require Import Reals Lra Lia ZArith List String Ascii Bool.
Import ListNotations.

Local Open Scope R_scope.

(** ** Exceptions and the error monad *)

(** The exceptions the script can meet.  [ValueError msg] is Python's own
    [ValueError], as a [raise ValueError(msg)] makes it; [UnitsError] is the
    error of astropy's unit conversions, which is a subclass of
    [ValueError]. *)
Inductive exn : Type :=
| ZeroDivisionError
| IndexError
| UnitsError
| ValueError (msg : string).

(** [isinstance(e, ValueError)], what an [except ValueError] catches. *)
Definition is_ValueError (e : exn) : bool :=
  match e with
  | ValueError _ => true
  | UnitsError => true
  | ZeroDivisionError => false
  | IndexError => false
  end.

Inductive result (A : Type) : Type :=
| Ok (a : A)
| Raise (e : exn).

Arguments Ok {A} a.
Arguments Raise {A} e.

Definition bind {A B : Type} (m : result A) (k : A -> result B) : result B :=
  match m with
  | Ok a => k a
  | Raise e => Raise e
  end.

Notation "x <- m ;; k" := (bind m (fun x => k))
  (at level 61, m at next level, right associativity).

(** ** numpy floats *)

Inductive npfloat : Type :=
| Fin (r : R)
| NonFinite.

Definition nlift2 (f : R -> R -> R) (a b : npfloat) : npfloat :=
  match a, b with
  | Fin x, Fin y => Fin (f x y)
  | _, _ => NonFinite
  end.

Definition nadd : npfloat -> npfloat -> npfloat := nlift2 Rplus.
Definition nsub : npfloat -> npfloat -> npfloat := nlift2 Rminus.
Definition nmul : npfloat -> npfloat -> npfloat := nlift2 Rmult.

(** numpy's true division: a zero divisor gives inf or nan (and a
    RuntimeWarning), never an exception. *)
Definition ndiv (a b : npfloat) : npfloat :=
  match a, b with
  | Fin x, Fin y => if Req_dec_T y 0 then NonFinite else Fin (x / y)
  | _, _ => NonFinite
  end.

(** Whether a real is an integer, and the power of a real by an integer
    exponent given as a real. *)
Definition is_integer (y : R) : {IZR (Int_part y) = y} + {IZR (Int_part y) <> y} :=
  Req_dec_T (IZR (Int_part y)) y.

(** numpy's [**] on doubles: a positive base has every real power; zero to
    a negative power is inf; a negative base has only integer powers, any
    other is nan. *)
Definition npow (a b : npfloat) : npfloat :=
  match a, b with
  | Fin x, Fin y =>
      if Rlt_dec 0 x then Fin (Rpower x y)
      else if Req_dec_T x 0 then
        (if Rlt_dec 0 y then Fin 0
         else if Req_dec_T y 0 then Fin 1
         else NonFinite)
      else
        (if is_integer y then Fin (powerRZ x (Int_part y)) else NonFinite)
  | _, _ => NonFinite
  end.

(** Python's [/] on two Python floats. *)
Definition py_truediv (a b : R) : result R :=
  if Req_dec_T b 0 then Raise ZeroDivisionError else Ok (a / b).

(** [seq[i]] for a non-negative index. *)
Definition getitem {A : Type} (l : list A) (i : nat) : result A :=
  match nth_error l i with
  | Some a => Ok a
  | None => Raise IndexError
  end.

(** [seq[-1]]. *)
Definition getitem_last {A : Type} (l : list A) : result A :=
  match l with
  | [] => Raise IndexError
  | a :: l' => Ok (last l' a)
  end.

(** ** Module constants (lines 19-21) *)

(** [E_REF] is the quantity 1 TeV.  Only its value enters the numbers: the
    unit of the reference energy cancels in the curves that are drawn. *)

Definition E_REF : npfloat := Fin 1.
Definition NORM : R := 1.
Definition INDEX : R := 3 / 2.

(** ** The power law helpers (lines 24-29) *)

(** [norm*(energy/E_0)**-index], on one energy. *)
Definition power_law (energy E_0 : npfloat) (norm index : R) : npfloat :=
  nmul (Fin norm) (npow (ndiv energy E_0) (Fin (- index))).

(** The same on an array of energies: numpy broadcasts elementwise. *)
Definition power_law_array (energies : list npfloat) (E_0 : npfloat)
    (norm index : R) : list npfloat :=
  map (fun energy => power_law energy E_0 norm index) energies.

(** [norm/(1 - index)/E_0**-index*(energy_band[1]**(1 - index)
     - energy_band[0]**(1 - index))], evaluated left to right.  [norm] and
    [index] are Python floats, so the first quotient raises on a zero
    divisor; [E_0] is a Quantity and [energy_band] a numpy array. *)
Definition int_power_law (energy_band : list npfloat) (E_0 : npfloat)
    (norm index : R) : result npfloat :=
  q <- py_truediv norm (1 - index) ;;
  let c := ndiv (Fin q) (npow E_0 (Fin (- index))) in
  hi <- getitem energy_band 1 ;;
  let p_hi := npow hi (Fin (1 - index)) in
  lo <- getitem energy_band 0 ;;
  let p_lo := npow lo (Fin (1 - index)) in
  Ok (nmul c (nsub p_hi p_lo)).

(** ** Units and quantities (astropy) *)

(** A unit is a scale and the powers of the base units (time, energy,
    angle) it is made of. *)
Record Unit : Type := mkUnit {
  scale : R;
  powers : Z * Z * Z
}.

Definition powers_add (p q : Z * Z * Z) : Z * Z * Z :=
  let '(a, b, c) := p in let '(a', b', c') := q in
  ((a + a')%Z, (b + b')%Z, (c + c')%Z).

Definition powers_sub (p q : Z * Z * Z) : Z * Z * Z :=
  let '(a, b, c) := p in let '(a', b', c') := q in
  ((a - a')%Z, (b - b')%Z, (c - c')%Z).

Definition powers_eqb (p q : Z * Z * Z) : bool :=
  let '(a, b, c) := p in let '(a', b', c') := q in
  (a =? a')%Z && (b =? b')%Z && (c =? c')%Z.

Definition unit_mul (u v : Unit) : Unit :=
  mkUnit (scale u * scale v) (powers_add (powers u) (powers v)).

Definition unit_div (u v : Unit) : Unit :=
  mkUnit (scale u / scale v) (powers_sub (powers u) (powers v)).

(** A scalar quantity and a three-dimensional array quantity, indexed by
    (energy bin, detector X bin, detector Y bin). *)
Record Quantity : Type := mkQuantity {
  value : npfloat;
  unit : Unit
}.

Definition array3 : Type := list (list (list npfloat)).

Record QuantityArray : Type := mkQuantityArray {
  values : array3;
  aunit : Unit
}.

Definition map3 (f : npfloat -> npfloat) (a : array3) : array3 :=
  map (map (map f)) a.

(** [q1 / q2] on scalar quantities. *)
Definition quantity_div (q1 q2 : Quantity) : Quantity :=
  mkQuantity (ndiv (value q1) (value q2)) (unit_div (unit q1) (unit q2)).

(** [a *= q]: every element is multiplied by the value of [q], the unit by
    its unit. *)
Definition quantity_imul (a : QuantityArray) (q : Quantity) : QuantityArray :=
  mkQuantityArray (map3 (fun d => nmul d (value q)) (values a))
                  (unit_mul (aunit a) (unit q)).

(** [a.to(u)]: the values are rescaled by the ratio of the two scales;
    units of different dimensions do not convert. *)
Definition quantity_to (a : QuantityArray) (u : Unit) : result QuantityArray :=
  if powers_eqb (powers (aunit a)) (powers u) then
    Ok (mkQuantityArray
          (map3 (fun d => nmul d (ndiv (Fin (scale (aunit a))) (Fin (scale u))))
                (values a))
          u)
  else Raise UnitsError.

(** Two quantities that denote the same physical amount. *)
Definition same_amount (q1 q2 : Quantity) : Prop :=
  powers (unit q1) = powers (unit q2) /\
  nmul (value q1) (Fin (scale (unit q1))) = nmul (value q2) (Fin (scale (unit q2))).

(** ** Background cubes *)

(** Modelled from the spec: the cube class of gammapy.background (its
    [data] and [integral] attributes).  A cube holds a three-dimensional
    array of rates with a unit; its integral is the total of all rate values
    weighted by bin volume. *)
Record Cube : Type := mkCube {
  data : QuantityArray;
  bin_volume : QuantityArray
}.

Fixpoint sum_with {A B : Type} (f : A -> B -> npfloat)
    (la : list A) (lb : list B) : npfloat :=
  match la, lb with
  | a :: la', b :: lb' => nadd (f a b) (sum_with f la' lb')
  | _, _ => Fin 0
  end.

(** The total of the products of two arrays, element by element. *)
Definition weighted_sum (d v : array3) : npfloat :=
  sum_with (sum_with (sum_with nmul)) d v.

(** Modelled from the spec: the cube's [integral] attribute, the total of
    all rate values weighted by bin volume, in the unit of the rates times
    the unit of the volumes. *)
Definition integral (c : Cube) : Quantity :=
  mkQuantity (weighted_sum (values (data c)) (values (bin_volume c)))
             (unit_mul (aunit (data c)) (aunit (bin_volume c))).

Definition set_data (c : Cube) (d : QuantityArray) : Cube :=
  mkCube d (bin_volume c).

(** ** The normalisation step (lines 67-72) *)

(** [bg_cube_model1.data *= integral2/integral1] alone. *)
Definition rescale (bg_cube_model1 bg_cube_model2 : Cube) : Cube :=
  let integral1 := integral bg_cube_model1 in
  let integral2 := integral bg_cube_model2 in
  set_data bg_cube_model1
    (quantity_imul (data bg_cube_model1) (quantity_div integral2 integral1)).

(** The rescale, then the conversion of the second cube's data to the unit
    of the first. *)
Definition normalize (bg_cube_model1 bg_cube_model2 : Cube)
    : result (Cube * Cube) :=
  let bg_cube_model1 := rescale bg_cube_model1 bg_cube_model2 in
  d2 <- quantity_to (data bg_cube_model2) (aunit (data bg_cube_model1)) ;;
  Ok (bg_cube_model1, set_data bg_cube_model2 d2).

(** ** numpy's trapezoidal rule *)

Fixpoint zip_with {A B C : Type} (f : A -> B -> C) (la : list A) (lb : list B)
    : list C :=
  match la, lb with
  | a :: la', b :: lb' => f a b :: zip_with f la' lb'
  | _, _ => []
  end.

Definition nsum (l : list npfloat) : npfloat := fold_right nadd (Fin 0) l.

(** [np.diff(x)], that is [x[1:] - x[:-1]]. *)
Definition diff (x : list npfloat) : list npfloat :=
  zip_with nsub (tl x) (removelast x).

(** [np.trapz(y=y, x=x)]: [(d * (y[1:] + y[:-1]) / 2.0).sum()] with
    [d = diff(x)], for [x] and [y] of one length. *)
Definition trapz (y x : list npfloat) : npfloat :=
  let d := diff x in
  nsum (map (fun t => ndiv t (Fin 2))
            (zip_with nmul d (zip_with nadd (tl y) (removelast y)))).

(** ** The figure (matplotlib) *)

(** The type of what a Python statement returns. *)
Definition NoneType : Type := Datatypes.unit.

Record Line2D : Type := mkLine2D {
  xydata : list (npfloat * npfloat);
  color : string;
  linestyle : option string;
  linewidth : option R;
  label : string
}.

Record Axes : Type := mkAxes {
  title : string;
  lines : list Line2D;
  images : list (Cube * R);
  has_legend : bool
}.

Record Figure : Type := mkFigure {
  size_inches : option (R * R);
  suptitle : string;
  axes : nat -> nat -> Axes;
  shown : bool
}.

Definition empty_axes : Axes := mkAxes EmptyString [] [] false.

(** [plt.subplots(nrows=2, ncols=3)]. *)
Definition subplots : Figure :=
  mkFigure None EmptyString (fun _ _ => empty_axes) false.

Definition set_axes (fig : Figure) (i j : nat) (ax : Axes) : Figure :=
  mkFigure (size_inches fig) (suptitle fig)
    (fun i' j' => if (Nat.eqb i' i && Nat.eqb j' j)%bool then ax
                  else axes fig i' j')
    (shown fig).

(** Statements that act on the figure: the figure is threaded through, and
    an exception leaves it as it was when raised. *)
Definition M (A : Type) : Type := Figure -> result A * Figure.

Definition ret {A : Type} (a : A) : M A := fun fig => (Ok a, fig).

Definition raise {A : Type} (e : exn) : M A := fun fig => (Raise e, fig).

Definition mbind {A B : Type} (m : M A) (k : A -> M B) : M B :=
  fun fig =>
    match m fig with
    | (Ok a, fig') => k a fig'
    | (Raise e, fig') => (Raise e, fig')
    end.

Notation "x <~ m ;; k" := (mbind m (fun x => k))
  (at level 61, m at next level, right associativity).
Notation "m ;;; k" := (mbind m (fun _ => k))
  (at level 61, right associativity).

(** A statement that updates the axes at [(i, j)], or raises. *)
Definition on_axes (i j : nat) (f : Axes -> result Axes) : M NoneType :=
  fun fig =>
    match f (axes fig i j) with
    | Ok ax => (Ok tt, set_axes fig i j ax)
    | Raise e => (Raise e, fig)
    end.

Definition get_title (i j : nat) : M string :=
  fun fig => (Ok (title (axes fig i j)), fig).

Definition ax_set_title (s : string) (ax : Axes) : Axes :=
  mkAxes s (lines ax) (images ax) (has_legend ax).

Definition ax_add_line (l : Line2D) (ax : Axes) : Axes :=
  mkAxes (title ax) (lines ax ++ [l]) (images ax) (has_legend ax).

Definition ax_add_image (c : Cube) (energy : R) (ax : Axes) : Axes :=
  mkAxes (title ax) (lines ax) (images ax ++ [(c, energy)]) (has_legend ax).

Definition ax_legend (ax : Axes) : Axes :=
  mkAxes (title ax) (lines ax) (images ax) true.

Definition set_title (i j : nat) (s : string) : M NoneType :=
  on_axes i j (fun ax => Ok (ax_set_title s ax)).

Definition legend (i j : nat) : M NoneType :=
  on_axes i j (fun ax => Ok (ax_legend ax)).

Definition set_size_inches (w h : R) : M NoneType :=
  fun fig => (Ok tt, mkFigure (Some (w, h)) (suptitle fig) (axes fig) (shown fig)).

Definition set_suptitle (s : string) : M NoneType :=
  fun fig => (Ok tt, mkFigure (size_inches fig) s (axes fig) (shown fig)).

Definition show : M NoneType :=
  fun fig => (Ok tt, mkFigure (size_inches fig) (suptitle fig) (axes fig) true).

Definition dquote : string := String "034"%char EmptyString.

(** The message of lines 106-107 (and 153-154). *)
Definition s_error (spec_title1 spec_title2 : string) : string :=
  ("Expected same det binning, but got "
   ++ (dquote ++ spec_title1 ++ dquote ++ " and " ++ dquote ++ spec_title2 ++ dquote))%string.

Definition group_info : string :=
  "group 27: ALT = [72.0, 90.0) deg, AZ = [90.0, 270.0) deg".

Section Script.

(** What the cube's plotting methods and Python's formatting of a float
    produce is outside the script. *)
Variable image_title : Cube -> R -> string.
Variable spectrum_title : Cube -> R * R -> string.
Variable spectrum_points : Cube -> R * R -> list (npfloat * npfloat).
Variable format_float : R -> string.

(** Modelled from the spec: the cube's [plot_image] method.  It draws the
    image of the cube at one energy on the axes and gives them an
    auto-generated title. *)
Definition plot_image (c : Cube) (energy : R) (i j : nat) : M NoneType :=
  on_axes i j (fun ax =>
    Ok (ax_set_title (image_title c energy) (ax_add_image c energy ax))).

(** Modelled from the spec: the cube's [plot_spectrum] method.  It plots
    the spectrum of the cube at one sky coordinate as a curve on the axes,
    styled by [style_kwargs], and gives the axes an auto-generated title
    that names the detector bin. *)
Definition spectrum_line (c : Cube) (coord : R * R)
    (style_color style_label : string) : Line2D :=
  mkLine2D (spectrum_points c coord) style_color None None style_label.

Definition plot_spectrum (c : Cube) (coord : R * R) (i j : nat)
    (style_color style_label : string) : M NoneType :=
  on_axes i j (fun ax =>
    Ok (ax_set_title (spectrum_title c coord)
          (ax_add_line (spectrum_line c coord style_color style_label) ax))).

(** The block "plot normalized models on top" (lines 118-126, and again at
    130-138, 165-173 and 177-185): the curve to draw on the axes. *)
Definition normed_PL (ax : Axes) (E_0 : npfloat) (norm index : R)
    (style : string) : result Line2D :=
  line_x <- getitem (lines ax) 0 ;;
  let plot_data_x := map fst (xydata line_x) in
  line_y <- getitem (lines ax) 0 ;;
  let plot_data_y := map snd (xydata line_y) in
  let plot_data_int := trapz plot_data_y plot_data_x in
  x_first <- getitem plot_data_x 0 ;;
  x_last <- getitem_last plot_data_x ;;
  let energy_band := [x_first; x_last] in
  model_int <- int_power_law energy_band E_0 norm index ;;
  let ys := map (nmul (ndiv plot_data_int model_int))
                (power_law_array plot_data_x E_0 norm index) in
  Ok (mkLine2D (combine plot_data_x ys) "blue" (Some style) (Some 2)
               ("model index = " ++ format_float index)).

Definition plot_normed_PL (row : nat) (index : R) (style : string) : M NoneType :=
  on_axes row 2 (fun ax =>
    l <- normed_PL ax E_REF NORM index style ;;
    Ok (ax_add_line l ax)).

(** The check of lines 105-110 (and 152-157). *)
Definition check_titles (row : nat) (spec_title1 spec_title2 : string) : M NoneType :=
  if negb (String.eqb spec_title1 spec_title2)
  then raise (ValueError (s_error spec_title1 spec_title2))
  else set_title row 2 spec_title1.

(** One spectral panel: lines 95-140 for row 0 at (0, 0) degrees, lines
    142-187 for row 1 at (2, 2) degrees. *)
Definition spectrum_panel (row : nat) (coord : R * R)
    (bg_cube_model1 : Cube) (name1 : string)
    (bg_cube_model2 : Cube) (name2 : string) : M NoneType :=
  plot_spectrum bg_cube_model1 coord row 2 "blue" name1 ;;;
  spec_title1 <~ get_title row 2 ;;
  plot_spectrum bg_cube_model2 coord row 2 "red" name2 ;;;
  spec_title2 <~ get_title row 2 ;;
  check_titles row spec_title1 spec_title2 ;;;
  plot_normed_PL row INDEX "dotted" ;;;
  plot_normed_PL row (INDEX + 1) "dashed" ;;;
  legend row 2.

(** One image panel (lines 83-84 and the three that follow). *)
Definition image_panel (i j : nat) (c : Cube) (energy : R) (name : string)
    : M NoneType :=
  plot_image c energy i j ;;;
  t <~ get_title i j ;;
  set_title i j (name ++ ": " ++ t).

(** Lines 75-189, on the normalised cubes. *)
Definition plot_panels (bg_cube_model1 : Cube) (name1 : string)
    (bg_cube_model2 : Cube) (name2 : string) : M NoneType :=
  set_size_inches 30 15 ;;;
  set_suptitle group_info ;;;
  image_panel 0 0 bg_cube_model1 1 name1 ;;;
  image_panel 1 0 bg_cube_model1 10 name1 ;;;
  image_panel 0 1 bg_cube_model2 1 name2 ;;;
  image_panel 1 1 bg_cube_model2 10 name2 ;;;
  spectrum_panel 0 (0, 0) bg_cube_model1 name1 bg_cube_model2 name2 ;;;
  spectrum_panel 1 (2, 2) bg_cube_model1 name1 bg_cube_model2 name2 ;;;
  show.

(** The whole function, from the two cubes that were read: the outcome and
    the figure, if one was made. *)
Definition plot_bg_cube_model_comparison (bg_cube_model1 : Cube)
    (name1 : string) (bg_cube_model2 : Cube) (name2 : string)
    : result NoneType * option Figure :=
  match normalize bg_cube_model1 bg_cube_model2 with
  | Raise e => (Raise e, None)
  | Ok (c1, c2) =>
      let (r, fig) := plot_panels c1 name1 c2 name2 subplots in
      (r, Some fig)
  end.

(** The statements that end a spectral panel (lines 118-140, and 165-187),
    on their own. *)
Definition overlays (row : nat) : M NoneType :=
  plot_normed_PL row INDEX "dotted" ;;;
  plot_normed_PL row (INDEX + 1) "dashed" ;;;
  legend row 2.

(** The axes of a spectral panel once the spectra of both cubes are plotted
    on [ax] (lines 95-104), and once the title is confirmed (line 110). *)
Definition axes_after_spectra (ax : Axes) (coord : R * R)
    (c1 : Cube) (name1 : string) (c2 : Cube) (name2 : string) : Axes :=
  ax_set_title (spectrum_title c2 coord)
    (ax_add_line (spectrum_line c2 coord "red" name2)
       (ax_set_title (spectrum_title c1 coord)
          (ax_add_line (spectrum_line c1 coord "blue" name1) ax))).

Definition axes_after_check (ax : Axes) (coord : R * R)
    (c1 : Cube) (name1 : string) (c2 : Cube) (name2 : string) : Axes :=
  ax_set_title (spectrum_title c1 coord)
    (axes_after_spectra ax coord c1 name1 c2 name2).

End Script.

(** [sub] occurs in [s]. *)
Definition contains (s sub : string) : Prop :=
  exists pre post : string, s = (pre ++ sub ++ post)%string.

(** An axes with the one curve [l]. *)
Definition axes_of_line (l : Line2D) : Axes := mkAxes EmptyString [l] [] false.

(** Two curves to plot one after the other: a flat spectrum over the
    energies 1 and 4, then another one over the energies 2 and 8. *)
Definition flat_curve : Line2D :=
  mkLine2D [(Fin 1, Fin 1); (Fin 4, Fin 1)] "blue" None None "true".

Definition later_curve : Line2D :=
  mkLine2D [(Fin 2, Fin 1); (Fin 8, Fin 1)] "red" None None "reco".

Definition two_curves : Axes :=
  mkAxes "det bin" [flat_curve; later_curve] [] false.

(** ** Definitions the properties are stated with *)

(** The spec's words for the two helpers, over the reals. *)
Definition spec_power_law (energy E_0 norm index : R) : R :=
  norm * Rpower (energy / E_0) (- index).

Definition spec_int_power_law (band_low band_high E_0 norm index : R) : R :=
  norm / (1 - index) / Rpower E_0 (- index)
  * (Rpower band_high (1 - index) - Rpower band_low (1 - index)).

(** The spec's closed form with the script's own arithmetic, for a band and
    a reference energy of any sign. *)
Definition closed_form (band_low band_high E_0 : npfloat) (norm index : R)
    : npfloat :=
  nmul (ndiv (ndiv (Fin norm) (Fin (1 - index))) (npow E_0 (Fin (- index))))
       (nsub (npow band_high (Fin (1 - index))) (npow band_low (Fin (1 - index)))).

Definition all3 (P : npfloat -> Prop) (a : array3) : Prop :=
  Forall (Forall (Forall P)) a.

(** Small cubes of one shape and one unit, to run the normalisation on: all
    ones with integral 10, a target of integral 25, and one of integral 0. *)
Definition ones_cube : Cube :=
  mkCube (mkQuantityArray [[[Fin 1; Fin 1]]] (mkUnit 1 (-1, -1, -2)%Z))
         (mkQuantityArray [[[Fin 5; Fin 5]]] (mkUnit 1 (0, 1, 2)%Z)).

Definition zero_cube : Cube :=
  mkCube (mkQuantityArray [[[Fin 0; Fin 0]]] (mkUnit 1 (-1, -1, -2)%Z))
         (mkQuantityArray [[[Fin 5; Fin 5]]] (mkUnit 1 (0, 1, 2)%Z)).

Definition target_cube : Cube :=
  mkCube (mkQuantityArray [[[Fin 2; Fin 3]]] (mkUnit 1 (-1, -1, -2)%Z))
         (mkQuantityArray [[[Fin 5; Fin 5]]] (mkUnit 1 (0, 1, 2)%Z)).

(** The curves on the spectral panel of one row at the end: the spectra of
    the two cubes, then two curves both computed from the first spectrum. *)
Definition drawn_from_first (spectrum_points : Cube -> R * R -> list (npfloat * npfloat))
    (format_float : R -> string) (fig : Figure) (row : nat) (coord : R * R)
    (c1 : Cube) (n1 : string) (c2 : Cube) (n2 : string) : Prop :=
  exists o1 o2 : Line2D,
    lines (axes fig row 2)
    = [spectrum_line spectrum_points c1 coord "blue" n1;
       spectrum_line spectrum_points c2 coord "red" n2; o1; o2]
    /\ normed_PL format_float
         (axes_of_line (spectrum_line spectrum_points c1 coord "blue" n1))
         E_REF NORM INDEX "dotted" = Ok o1
    /\ normed_PL format_float
         (axes_of_line (spectrum_line spectrum_points c1 coord "blue" n1))
         E_REF NORM (INDEX + 1) "dashed" = Ok o2.

(** A title that names the binning of a cube, and two cubes of different
    binnings. *)
Definition binning_title (c : Cube) (coord : R * R) : string :=
  if Nat.eqb (List.length (values (data c))) 3 then "det bin: 3x3"
  else "det bin: 5x5".

Definition cube_of_bins (n : nat) : Cube :=
  mkCube (mkQuantityArray (repeat [[Fin 1]] n) (mkUnit 1 (-1, -1, -2)%Z))
         (mkQuantityArray (repeat [[Fin 1]] n) (mkUnit 1 (0, 1, 2)%Z)).

(** Energies that are positive real numbers. *)
Definition positive_energies (xs : list npfloat) : Prop :=
  Forall (fun x => exists e : R, x = Fin e /\ 0 < e) xs.

(** The curve [l] with every ordinate multiplied by [k]. *)
Definition scale_curve (k : R) (l : Line2D) : Line2D :=
  mkLine2D (map (fun p => (fst p, nmul (Fin k) (snd p))) (xydata l))
           (color l) (linestyle l) (linewidth l) (label l).

(** What a statement on the spectral panel of one row leaves alone: the
    size, the title and the display of the figure, and all other axes. *)
Definition frame_kept (row : nat) (fig fig' : Figure) : Prop :=
  size_inches fig' = size_inches fig
  /\ suptitle fig' = suptitle fig
  /\ shown fig' = shown fig
  /\ forall i j, ((i =? row)%nat && (j =? 2)%nat)%bool = false ->
                 axes fig' i j = axes fig i j.

Definition keeps_frame {A : Type} (row : nat) (m : M A) : Prop :=
  forall fig : Figure, frame_kept row fig (snd (m fig)).

(** The statements of lines 76-90 on their own: the size, the title of the
    figure and the four image panels. *)
Definition images_drawn (image_title : Cube -> R -> string)
    (c1 : Cube) (name1 : string) (c2 : Cube) (name2 : string) : M NoneType :=
  set_size_inches 30 15 ;;;
  set_suptitle group_info ;;;
  image_panel image_title 0 0 c1 1 name1 ;;;
  image_panel image_title 1 0 c1 10 name1 ;;;
  image_panel image_title 0 1 c2 1 name2 ;;;
  image_panel image_title 1 1 c2 10 name2.

(** What decides the outcome of a spectral panel on fresh axes: the check of
    the two titles, then whether the first spectrum has a sample. *)
Definition panel_outcome (spectrum_title : Cube -> R * R -> string)
    (spectrum_points : Cube -> R * R -> list (npfloat * npfloat))
    (coord : R * R) (c1 c2 : Cube) : result NoneType :=
  if negb (String.eqb (spectrum_title c1 coord) (spectrum_title c2 coord))
  then Raise (ValueError (s_error (spectrum_title c1 coord) (spectrum_title c2 coord)))
  else match spectrum_points c1 coord with
       | [] => Raise IndexError
       | _ :: _ => Ok tt
       end.

Definition expected_outcome (spectrum_title : Cube -> R * R -> string)
    (spectrum_points : Cube -> R * R -> list (npfloat * npfloat))
    (b1 b2 : Cube) : result NoneType :=
  cubes <- normalize b1 b2 ;;
  _ <- panel_outcome spectrum_title spectrum_points (0, 0) (fst cubes) (snd cubes) ;;
  panel_outcome spectrum_title spectrum_points (2, 2) (fst cubes) (snd cubes).

(** * Properties *)

(** ** Arithmetic on numpy floats *)

Lemma ndiv_Fin (x y : R) : y <> 0 -> ndiv (Fin x) (Fin y) = Fin (x / y).
Proof.
  intros Hy. unfold ndiv. destruct (Req_dec_T y 0) as [E | _]; [contradiction | reflexivity].
Qed.

Lemma ndiv_zero (x : R) : ndiv (Fin x) (Fin 0) = NonFinite.
Proof.
  unfold ndiv. destruct (Req_dec_T 0 0) as [_ | N]; [reflexivity | now elim N].
Qed.

Lemma npow_pos (x y : R) : 0 < x -> npow (Fin x) (Fin y) = Fin (Rpower x y).
Proof.
  intros Hx. unfold npow. destruct (Rlt_dec 0 x) as [_ | N]; [reflexivity | contradiction].
Qed.

Lemma npow_zero_neg (y : R) : y < 0 -> npow (Fin 0) (Fin y) = NonFinite.
Proof.
  intros Hy. unfold npow.
  destruct (Rlt_dec 0 0) as [H | _]; [lra |].
  destruct (Req_dec_T 0 0) as [_ | N]; [| now elim N].
  destruct (Rlt_dec 0 y) as [H | _]; [lra |].
  destruct (Req_dec_T y 0) as [H | _]; [lra | reflexivity].
Qed.

Lemma Int_part_1 : Int_part 1 = 1%Z.
Proof. symmetry. apply Int_part_spec. simpl. lra. Qed.

Lemma npow_one_exp (x : R) : npow (Fin x) (Fin 1) = Fin x.
Proof.
  unfold npow.
  destruct (Rlt_dec 0 x) as [Hx | Hx].
  - now rewrite Rpower_1.
  - destruct (Req_dec_T x 0) as [E | E].
    + destruct (Rlt_dec 0 1) as [_ | N]; [now subst | lra].
    + unfold is_integer. rewrite Int_part_1.
      destruct (Req_dec_T 1 1) as [_ | N]; [| now elim N].
      f_equal. simpl. lra.
Qed.

Lemma Rpower_pos (x y : R) : 0 < Rpower x y.
Proof. unfold Rpower. apply exp_pos. Qed.

Lemma Rpower_base_1 (y : R) : Rpower 1 y = 1.
Proof. unfold Rpower. rewrite ln_1, Rmult_0_r. apply exp_0. Qed.

Lemma Rpower_Rinv_base (x z : R) : 0 < x -> Rpower (/ x) z = / Rpower x z.
Proof.
  intros Hx. unfold Rpower. rewrite ln_Rinv by assumption.
  replace (z * - ln x) with (- (z * ln x)) by ring. apply exp_Ropp.
Qed.

Lemma Rpower_div_base (x y z : R) :
  0 < x -> 0 < y -> Rpower (x / y) z = Rpower x z / Rpower y z.
Proof.
  intros Hx Hy. unfold Rdiv.
  rewrite <- Rpower_mult_distr by (try assumption; now apply Rinv_0_lt_compat).
  now rewrite Rpower_Rinv_base.
Qed.

Lemma py_truediv_ok (a b : R) : b <> 0 -> py_truediv a b = Ok (a / b).
Proof.
  intros Hb. unfold py_truediv.
  destruct (Req_dec_T b 0) as [E | _]; [contradiction | reflexivity].
Qed.

Lemma py_truediv_zero (a : R) : py_truediv a 0 = Raise ZeroDivisionError.
Proof.
  unfold py_truediv. destruct (Req_dec_T 0 0) as [_ | N]; [reflexivity | now elim N].
Qed.

(** ** The power law *)

Lemma power_law_pos (energy E_0 norm index : R) :
  0 < energy -> 0 < E_0 ->
  power_law (Fin energy) (Fin E_0) norm index
  = Fin (spec_power_law energy E_0 norm index).
Proof.
  intros He H0. unfold power_law, spec_power_law.
  rewrite ndiv_Fin by lra.
  rewrite npow_pos by (apply Rdiv_lt_0_compat; assumption).
  reflexivity.
Qed.

Lemma int_power_law_pair (lo hi E_0 : npfloat) (norm index : R) :
  index <> 1 ->
  int_power_law [lo; hi] E_0 norm index
  = Ok (nmul (ndiv (Fin (norm / (1 - index))) (npow E_0 (Fin (- index))))
             (nsub (npow hi (Fin (1 - index))) (npow lo (Fin (1 - index))))).
Proof.
  intros Hi. unfold int_power_law.
  rewrite py_truediv_ok by lra. reflexivity.
Qed.

Lemma int_power_law_pos (lo hi E_0 norm index : R) :
  0 < lo -> 0 < hi -> 0 < E_0 -> index <> 1 ->
  int_power_law [Fin lo; Fin hi] (Fin E_0) norm index
  = Ok (Fin (spec_int_power_law lo hi E_0 norm index)).
Proof.
  intros Hlo Hhi H0 Hi. rewrite int_power_law_pair by assumption.
  rewrite !npow_pos by assumption.
  rewrite ndiv_Fin by (apply Rgt_not_eq, Rpower_pos).
  reflexivity.
Qed.

Lemma int_power_law_index_1 (energy_band : list npfloat) (E_0 : npfloat) (norm : R) :
  int_power_law energy_band E_0 norm 1 = Raise ZeroDivisionError.
Proof.
  unfold int_power_law. replace (1 - 1) with 0 by ring.
  now rewrite py_truediv_zero.
Qed.

Lemma int_power_law_raises (energy_band : list npfloat) (E_0 : npfloat)
    (norm index : R) (e : exn) :
  int_power_law energy_band E_0 norm index = Raise e ->
  (e = ZeroDivisionError /\ index = 1) \/ (e = IndexError /\ index <> 1).
Proof.
  unfold int_power_law, py_truediv.
  destruct (Req_dec_T (1 - index) 0) as [E | N]; simpl.
  - intros H. injection H as <-. left. split; [reflexivity | lra].
  - destruct energy_band as [| lo [| hi rest]]; simpl; intros H;
      try discriminate; injection H as <-; right; split; try reflexivity; lra.
Qed.

(** The closed form is a primitive of the power law on the positive
    energies. *)
Lemma spec_int_power_law_derivative (lo E_0 norm index energy : R) :
  0 < E_0 -> index <> 1 -> 0 < energy ->
  derivable_pt_lim (fun e => spec_int_power_law lo e E_0 norm index) energy
                   (spec_power_law energy E_0 norm index).
Proof.
  intros H0 Hi He.
  set (c := norm / (1 - index) / Rpower E_0 (- index)).
  apply derivable_pt_lim_ext with
    (f := (mult_real_fct c
             ((fun e => Rpower e (1 - index)) - fct_cte (Rpower lo (1 - index)))%F)).
  - intros z. unfold mult_real_fct, minus_fct, fct_cte, spec_int_power_law.
    reflexivity.
  - replace (spec_power_law energy E_0 norm index)
      with (c * ((1 - index) * Rpower energy (1 - index - 1) - 0)).
    + apply derivable_pt_lim_scal, derivable_pt_lim_minus.
      * now apply derivable_pt_lim_power.
      * apply derivable_pt_lim_const.
    + unfold spec_power_law, c.
      rewrite Rpower_div_base by assumption.
      replace (1 - index - 1) with (- index) by ring.
      pose proof (Rpower_pos E_0 (- index)) as Hp.
      field. split; lra.
Qed.

Lemma power_law_reference (E_0 norm index : R) :
  E_0 <> 0 -> power_law (Fin E_0) (Fin E_0) norm index = Fin norm.
Proof.
  intros H0. unfold power_law. rewrite ndiv_Fin by assumption.
  replace (E_0 / E_0) with 1 by (field; assumption).
  rewrite npow_pos by lra. rewrite Rpower_base_1. simpl. f_equal. ring.
Qed.

(** C4: [power_law] is a function of its four arguments alone, with no
    state: for every positive energy it returns
    [norm * (energy/E_0)^(-index)]; for a positive reference energy that is
    the real power law, and at the reference energy itself it is [norm],
    whatever the index. *)
Theorem power_law_value (energy E_0 norm index : R) :
  0 < energy ->
  power_law (Fin energy) (Fin E_0) norm index
    = nmul (Fin norm) (npow (ndiv (Fin energy) (Fin E_0)) (Fin (- index)))
  /\ (0 < E_0 ->
      power_law (Fin energy) (Fin E_0) norm index
        = Fin (norm * Rpower (energy / E_0) (- index)))
  /\ power_law (Fin energy) (Fin energy) norm index = Fin norm
  /\ (E_0 <> 0 -> power_law (Fin E_0) (Fin E_0) norm index = Fin norm).
Proof.
  intros He. split; [reflexivity |]. split; [| split].
  - intros H0. now rewrite power_law_pos.
  - apply power_law_reference. lra.
  - apply power_law_reference.
Qed.

Lemma power_law_value_witness :
  power_law (Fin 4) (Fin 2) 3 2
    = nmul (Fin 3) (npow (ndiv (Fin 4) (Fin 2)) (Fin (- 2)))
  /\ (0 < 2 -> power_law (Fin 4) (Fin 2) 3 2 = Fin (3 * Rpower (4 / 2) (- 2)))
  /\ power_law (Fin 4) (Fin 4) 3 2 = Fin 3
  /\ (2 <> 0 -> power_law (Fin 2) (Fin 2) 3 2 = Fin 3).
Proof. apply (power_law_value 4 2 3 2); lra. Defined.

(** C3: for a positive reference energy and an index other than 1,
    [int_power_law] returns the closed form
    [norm/(1-index)/E_0^(-index) * (band_high^(1-index) - band_low^(1-index))]
    for every band; on positive energies that is a real number, and as a
    function of the upper end of the band it is a primitive of the power law
    that vanishes at the lower end, that is its integral over the band; at
    index 0 it is the flat integral [norm * (band_high - band_low)]. *)
Theorem int_power_law_closed_form (band_low band_high E_0 norm index : R) :
  0 < E_0 -> index <> 1 ->
  int_power_law [Fin band_low; Fin band_high] (Fin E_0) norm index
    = Ok (closed_form (Fin band_low) (Fin band_high) (Fin E_0) norm index)
  /\ (0 < band_low -> 0 < band_high ->
      closed_form (Fin band_low) (Fin band_high) (Fin E_0) norm index
        = Fin (spec_int_power_law band_low band_high E_0 norm index))
  /\ (0 < band_low <= band_high ->
      antiderivative (fun e => spec_power_law e E_0 norm index)
                     (fun e => spec_int_power_law band_low e E_0 norm index)
                     band_low band_high
      /\ spec_int_power_law band_low band_low E_0 norm index = 0)
  /\ (index = 0 ->
      closed_form (Fin band_low) (Fin band_high) (Fin E_0) norm index
        = Fin (norm * (band_high - band_low))).
Proof.
  intros H0 Hi.
  assert (Hc : closed_form (Fin band_low) (Fin band_high) (Fin E_0) norm index
               = nmul (ndiv (Fin (norm / (1 - index))) (npow (Fin E_0) (Fin (- index))))
                      (nsub (npow (Fin band_high) (Fin (1 - index)))
                            (npow (Fin band_low) (Fin (1 - index))))).
  { unfold closed_form. now rewrite (ndiv_Fin norm (1 - index)) by lra. }
  split; [| split; [| split]].
  - rewrite int_power_law_pair by assumption. now rewrite Hc.
  - intros Hlo Hhi. rewrite Hc, !npow_pos by assumption.
    rewrite ndiv_Fin by (apply Rgt_not_eq, Rpower_pos). reflexivity.
  - intros [Hlo Hle]. split; [split; [| assumption] |].
    + intros x [Hx _].
      assert (D : derivable_pt_lim
                    (fun e => spec_int_power_law band_low e E_0 norm index) x
                    (spec_power_law x E_0 norm index))
        by (apply spec_int_power_law_derivative; lra).
      exists (exist _ _ D). symmetry. now apply derive_pt_eq_0.
    + unfold spec_int_power_law. ring.
  - intros ->. rewrite Hc.
    replace (1 - 0) with 1 by ring. rewrite !npow_one_exp.
    rewrite npow_pos by assumption. rewrite Ropp_0, Rpower_O by assumption.
    rewrite ndiv_Fin by lra. simpl. f_equal. field.
Qed.

Lemma int_power_law_closed_form_witness :
  int_power_law [Fin 1; Fin 4] (Fin 1) 1 (3 / 2)
    = Ok (closed_form (Fin 1) (Fin 4) (Fin 1) 1 (3 / 2))
  /\ (0 < 1 -> 0 < 4 ->
      closed_form (Fin 1) (Fin 4) (Fin 1) 1 (3 / 2)
        = Fin (spec_int_power_law 1 4 1 1 (3 / 2)))
  /\ (0 < 1 <= 4 ->
      antiderivative (fun e => spec_power_law e 1 1 (3 / 2))
                     (fun e => spec_int_power_law 1 e 1 1 (3 / 2)) 1 4
      /\ spec_int_power_law 1 1 1 1 (3 / 2) = 0)
  /\ (3 / 2 = 0 ->
      closed_form (Fin 1) (Fin 4) (Fin 1) 1 (3 / 2) = Fin (1 * (4 - 1))).
Proof. apply (int_power_law_closed_form 1 4 1 1 (3 / 2)); lra. Defined.

(** C10 as stated fails on the band [0, 0] with index 2: both powers of
    zero are infinite and their difference is not a number. *)
Lemma int_power_law_degenerate_counterexample :
  int_power_law [Fin 0; Fin 0] (Fin 1) 1 2 = Ok NonFinite
  /\ ~ (forall a E_0 norm index : R, 0 < E_0 -> index <> 1 ->
        int_power_law [Fin a; Fin a] (Fin E_0) norm index = Ok (Fin 0)).
Proof.
  assert (E : int_power_law [Fin 0; Fin 0] (Fin 1) 1 2 = Ok NonFinite).
  { rewrite int_power_law_pair by lra.
    rewrite (npow_zero_neg (1 - 2)) by lra.
    destruct (ndiv _ _); reflexivity. }
  split; [exact E |].
  intros H. specialize (H 0 1 1 2). rewrite E in H.
  assert (C : Ok NonFinite = Ok (Fin 0)) by (apply H; lra).
  discriminate C.
Qed.

(** C10, amended: for a positive reference energy, an index other than 1
    and band ends whose powers [a^(1-index)] and [b^(1-index)] are finite
    (as they are for all positive [a] and [b]), [int_power_law] is 0 on the
    degenerate band [a, a], and reversing the band negates its value. *)
Theorem int_power_law_band_reversal (a b E_0 norm index : R) :
  0 < E_0 -> index <> 1 ->
  npow (Fin a) (Fin (1 - index)) <> NonFinite ->
  npow (Fin b) (Fin (1 - index)) <> NonFinite ->
  int_power_law [Fin a; Fin a] (Fin E_0) norm index = Ok (Fin 0)
  /\ exists v : R,
       int_power_law [Fin a; Fin b] (Fin E_0) norm index = Ok (Fin v)
       /\ int_power_law [Fin b; Fin a] (Fin E_0) norm index = Ok (Fin (- v)).
Proof.
  intros H0 Hi Ha Hb. rewrite !int_power_law_pair by assumption.
  rewrite npow_pos by assumption.
  rewrite ndiv_Fin by (apply Rgt_not_eq, Rpower_pos).
  destruct (npow (Fin a) (Fin (1 - index))) as [pa |]; [| now elim Ha].
  destruct (npow (Fin b) (Fin (1 - index))) as [pb |]; [| now elim Hb].
  simpl. split.
  - do 2 f_equal. ring.
  - eexists. split; [reflexivity |]. do 2 f_equal. ring.
Qed.

Lemma int_power_law_band_reversal_witness :
  int_power_law [Fin 1; Fin 1] (Fin 1) 1 (3 / 2) = Ok (Fin 0)
  /\ exists v : R,
       int_power_law [Fin 1; Fin 4] (Fin 1) 1 (3 / 2) = Ok (Fin v)
       /\ int_power_law [Fin 4; Fin 1] (Fin 1) 1 (3 / 2) = Ok (Fin (- v)).
Proof.
  apply (int_power_law_band_reversal 1 4 1 1 (3 / 2)); try lra;
    rewrite npow_pos by lra; discriminate.
Defined.

(** C5: [int_power_law] raises [ZeroDivisionError] exactly when the index
    is 1, whatever the band, the reference energy and the norm; for any
    other index and a band of two energies it returns.  Nothing guards the
    case: the function raises on every input with index 1, and so does the
    block that calls it, on any axes whose first curve has a sample. *)
Theorem int_power_law_zero_division (energy_band : list npfloat)
    (E_0 : npfloat) (norm index : R) :
  (int_power_law energy_band E_0 norm index = Raise ZeroDivisionError
   <-> index = 1)
  /\ (forall lo hi rest, energy_band = lo :: hi :: rest -> index <> 1 ->
      exists v, int_power_law energy_band E_0 norm index = Ok v)
  /\ (forall format_float ax l rest p pts style,
      lines ax = l :: rest -> xydata l = p :: pts ->
      normed_PL format_float ax E_0 norm 1 style = Raise ZeroDivisionError).
Proof.
  split; [| split].
  - split.
    + intros H. apply int_power_law_raises in H.
      destruct H as [[_ H] | [H _]]; [assumption | discriminate].
    + intros ->. apply int_power_law_index_1.
  - intros lo hi rest -> Hi. unfold int_power_law.
    rewrite py_truediv_ok by lra. simpl. eexists. reflexivity.
  - intros format_float ax l rest p pts style Hl Hp. unfold normed_PL.
    rewrite Hl. simpl. rewrite Hp. simpl.
    now rewrite int_power_law_index_1.
Qed.

(** ** The normalisation *)

Lemma nmul_nadd_distr (r : R) (x y : npfloat) :
  nadd (nmul (Fin r) x) (nmul (Fin r) y) = nmul (Fin r) (nadd x y).
Proof. destruct x, y; simpl; try reflexivity. f_equal. ring. Qed.

Lemma sum_with_scale {A B : Type} (f : A -> B -> npfloat) (g : A -> A) (r : R) :
  (forall a b, f (g a) b = nmul (Fin r) (f a b)) ->
  forall la lb, sum_with f (map g la) lb = nmul (Fin r) (sum_with f la lb).
Proof.
  intros Hf. induction la as [| a la IH]; intros [| b lb]; simpl;
    try (f_equal; ring).
  now rewrite Hf, IH, nmul_nadd_distr.
Qed.

Lemma weighted_sum_scale (r : R) (d v : array3) :
  weighted_sum (map3 (fun x => nmul x (Fin r)) d) v
  = nmul (Fin r) (weighted_sum d v).
Proof.
  unfold weighted_sum, map3.
  apply sum_with_scale. intros a b.
  apply sum_with_scale. intros a' b'.
  apply sum_with_scale. intros x y.
  destruct x, y; simpl; try reflexivity. f_equal. ring.
Qed.

Lemma all3_map3 (P Q : npfloat -> Prop) (f : npfloat -> npfloat) (a : array3) :
  (forall x, P x -> Q (f x)) -> all3 P a -> all3 Q (map3 f a).
Proof.
  intros H. unfold all3, map3. intros Ha.
  apply Forall_map. eapply Forall_impl; [| exact Ha]. intros l Hl.
  apply Forall_map. eapply Forall_impl; [| exact Hl]. intros l' Hl'.
  apply Forall_map. eapply Forall_impl; [| exact Hl']. exact H.
Qed.

Lemma rescale_values (c1 c2 : Cube) :
  values (data (rescale c1 c2))
  = map3 (fun d => nmul d (ndiv (value (integral c2)) (value (integral c1))))
         (values (data c1)).
Proof. reflexivity. Qed.

Lemma powers_eqb_eq (p q : Z * Z * Z) : powers_eqb p q = true <-> p = q.
Proof.
  destruct p as [[a b] c], q as [[a' b'] c']. simpl.
  rewrite !andb_true_iff, !Z.eqb_eq. split.
  - intros [[-> ->] ->]. reflexivity.
  - intros H. injection H as -> -> ->. auto.
Qed.

Lemma rescale_by_ratio (c1 c2 : Cube) (I1 I2 : R) :
  value (integral c1) = Fin I1 -> value (integral c2) = Fin I2 -> I1 <> 0 ->
  values (data (rescale c1 c2))
  = map3 (fun d => nmul d (Fin (I2 / I1))) (values (data c1)).
Proof.
  intros H1 H2 Hn. rewrite rescale_values.
  now rewrite H1, H2, ndiv_Fin by assumption.
Qed.

Lemma normalize_raise (b1 b2 : Cube) (e : exn) :
  normalize b1 b2 = Raise e -> e = UnitsError.
Proof.
  unfold normalize, quantity_to.
  destruct (powers_eqb _ _); simpl; congruence.
Qed.

(** C9: the rescale divides by the integral of the first cube and nothing
    guards it.  When that integral is 0 the quotient is a division by zero:
    it is not a number, and neither is any element of the rescaled data.
    When it is not 0 the quotient is the real [I2/I1] and every element is
    multiplied by it.  In neither case does the step raise for the
    division. *)
Theorem rescale_division (c1 c2 : Cube) (I1 I2 : R) :
  value (integral c1) = Fin I1 -> value (integral c2) = Fin I2 ->
  (I1 = 0 ->
     value (quantity_div (integral c2) (integral c1)) = NonFinite
     /\ all3 (fun d => d = NonFinite) (values (data (rescale c1 c2))))
  /\ (I1 <> 0 ->
     value (quantity_div (integral c2) (integral c1)) = Fin (I2 / I1)
     /\ values (data (rescale c1 c2))
        = map3 (fun d => nmul d (Fin (I2 / I1))) (values (data c1)))
  /\ normalize c1 c2 <> Raise ZeroDivisionError.
Proof.
  intros H1 H2. split; [| split].
  - intros ->. rewrite rescale_values.
    change (value (quantity_div (integral c2) (integral c1)))
      with (ndiv (value (integral c2)) (value (integral c1))).
    rewrite H1, H2, ndiv_zero. split; [reflexivity |].
    apply all3_map3 with (P := fun _ => True).
    + intros x _. now destruct x.
    + unfold all3. apply Forall_forall. intros l _.
      apply Forall_forall. intros l' _. apply Forall_forall. trivial.
  - intros Hn. split; [| now apply rescale_by_ratio].
    change (value (quantity_div (integral c2) (integral c1)))
      with (ndiv (value (integral c2)) (value (integral c1))).
    now rewrite H1, H2, ndiv_Fin by assumption.
  - intros H. apply normalize_raise in H. discriminate H.
Qed.

Ltac eval_integral :=
  cbv [integral weighted_sum sum_with nmul nadd nlift2
       value data bin_volume values ones_cube target_cube zero_cube].

Lemma ones_cube_integral : value (integral ones_cube) = Fin 10.
Proof. eval_integral. f_equal. lra. Qed.

Lemma target_cube_integral : value (integral target_cube) = Fin 25.
Proof. eval_integral. f_equal. lra. Qed.

Lemma zero_cube_integral : value (integral zero_cube) = Fin 0.
Proof. eval_integral. f_equal. lra. Qed.

Lemma rescale_division_witness :
  value (quantity_div (integral target_cube) (integral zero_cube)) = NonFinite
  /\ all3 (fun d => d = NonFinite) (values (data (rescale zero_cube target_cube))).
Proof.
  apply (proj1 (rescale_division zero_cube target_cube 0 25
                  zero_cube_integral target_cube_integral)).
  reflexivity.
Defined.

(** C8: when every element of the first cube's data is 1, its integral is
    10 and the integral of the second cube is 25, every element of the
    rescaled data is 2.5 (and the data keep their shape). *)
Theorem rescale_all_ones (c1 c2 : Cube) :
  all3 (fun d => d = Fin 1) (values (data c1)) ->
  value (integral c1) = Fin 10 -> value (integral c2) = Fin 25 ->
  all3 (fun d => d = Fin (5 / 2)) (values (data (rescale c1 c2)))
  /\ map (map (@List.length npfloat)) (values (data (rescale c1 c2)))
     = map (map (@List.length npfloat)) (values (data c1)).
Proof.
  intros Hones H1 H2.
  rewrite (rescale_by_ratio c1 c2 10 25 H1 H2) by lra. split.
  - eapply all3_map3; [| exact Hones].
    intros x ->. simpl. f_equal. lra.
  - unfold map3. rewrite map_map. apply map_ext. intros l.
    rewrite map_map. apply map_ext. intros l'. apply length_map.
Qed.

Lemma rescale_all_ones_witness :
  all3 (fun d => d = Fin (5 / 2)) (values (data (rescale ones_cube target_cube)))
  /\ map (map (@List.length npfloat)) (values (data (rescale ones_cube target_cube)))
     = map (map (@List.length npfloat)) (values (data ones_cube)).
Proof.
  apply (rescale_all_ones ones_cube target_cube).
  - repeat constructor.
  - exact ones_cube_integral.
  - exact target_cube_integral.
Defined.

Lemma normalize_ok (c1 c2 c1' c2' : Cube) :
  normalize c1 c2 = Ok (c1', c2') ->
  c1' = rescale c1 c2
  /\ powers (aunit (data c2)) = powers (aunit (data (rescale c1 c2)))
  /\ c2' = set_data c2
             (mkQuantityArray
                (map3 (fun d => nmul d (ndiv (Fin (scale (aunit (data c2))))
                                             (Fin (scale (aunit (data (rescale c1 c2)))))))
                      (values (data c2)))
                (aunit (data (rescale c1 c2)))).
Proof.
  unfold normalize, quantity_to.
  destruct (powers_eqb _ _) eqn:E; simpl; [| discriminate].
  intros H. injection H as <- <-. apply powers_eqb_eq in E. auto.
Qed.

(** C1: when the normalisation step returns, the data of the two cubes have
    one unit; and when the two integrals are numbers, the first not 0 (and
    the units have positive scales), the integral of the rescaled first cube
    is the integral [I2] of the second, and the integrals of the two cubes
    after the step are the same amount. *)
Theorem normalize_invariant (c1 c2 c1' c2' : Cube) :
  normalize c1 c2 = Ok (c1', c2') ->
  aunit (data c1') = aunit (data c2')
  /\ (forall I1 I2 : R,
      value (integral c1) = Fin I1 -> I1 <> 0 ->
      value (integral c2) = Fin I2 ->
      0 < scale (aunit (data c1)) -> 0 < scale (aunit (bin_volume c1)) ->
      0 < scale (aunit (data c2)) -> 0 < scale (aunit (bin_volume c2)) ->
      integral c1' = integral c2
      /\ value (integral c1') = Fin I2
      /\ same_amount (integral c1') (integral c2')).
Proof.
  intros H. apply normalize_ok in H. destruct H as (-> & Hp & ->).
  split; [reflexivity |].
  intros I1 I2 H1 HI1 H2 Hs1 Hv1 Hs2 Hv2.
  destruct c1 as [[d1 [s1 p1]] [v1 [sv1 q1]]].
  destruct c2 as [[d2 [s2 p2]] [v2 [sv2 q2]]].
  cbv [integral value data bin_volume values aunit scale powers] in H1, H2, Hs1, Hv1, Hs2, Hv2.
  cbv [rescale set_data quantity_imul quantity_div integral unit_mul unit_div
       value unit data bin_volume values aunit scale powers] in Hp |- *.
  rewrite H1, H2 in *. rewrite ndiv_Fin by assumption.
  rewrite weighted_sum_scale, H1.
  assert (Hq : q1 = q2).
  { destruct p1 as [[a1 b1] e1], q1 as [[a2 b2] e2],
             p2 as [[a3 b3] e3], q2 as [[a4 b4] e4].
    simpl in Hp. injection Hp as Ha Hb He. f_equal; [f_equal |]; lia. }
  subst q2.
  assert (Hpow : powers_add p1 (powers_sub (powers_add p2 q1) (powers_add p1 q1)) = p2).
  { destruct p1 as [[a1 b1] e1], q1 as [[a2 b2] e2], p2 as [[a3 b3] e3].
    simpl. f_equal; [f_equal |]; lia. }
  rewrite Hpow.
  set (s1' := s1 * (s2 * sv2 / (s1 * sv1))).
  assert (Hs1' : 0 < s1').
  { unfold s1'. apply Rmult_lt_0_compat; [assumption |].
    apply Rdiv_lt_0_compat; apply Rmult_lt_0_compat; assumption. }
  assert (Hsc : s1' * sv1 = s2 * sv2) by (unfold s1'; field; lra).
  split; [| split].
  - simpl. f_equal; [f_equal; field; assumption | f_equal; assumption].
  - simpl. f_equal. field. assumption.
  - unfold same_amount.
    cbv [integral set_data unit_mul value unit data bin_volume values aunit scale powers].
    split; [reflexivity |].
    rewrite ndiv_Fin by lra. rewrite weighted_sum_scale, H2. simpl.
    f_equal. rewrite Hsc. field. lra.
Qed.

Lemma normalize_invariant_witness :
  exists c1' c2' : Cube,
    normalize ones_cube target_cube = Ok (c1', c2')
    /\ aunit (data c1') = aunit (data c2')
    /\ integral c1' = integral target_cube
    /\ value (integral c1') = Fin 25
    /\ same_amount (integral c1') (integral c2').
Proof.
  do 2 eexists. split; [reflexivity |].
  destruct (normalize_invariant ones_cube target_cube _ _ eq_refl) as [Hu Hi].
  split; [exact Hu |].
  apply (Hi 10 25);
    [exact ones_cube_integral | lra | exact target_cube_integral
    | simpl; lra | simpl; lra | simpl; lra | simpl; lra].
Defined.

(** ** The curves drawn over the spectra *)

Lemma bind_raise {A B : Type} (m : result A) (k : A -> result B) (e : exn) :
  bind m k = Raise e ->
  m = Raise e \/ exists a, m = Ok a /\ k a = Raise e.
Proof.
  destruct m as [a | e']; simpl; intros H; [right; eauto | left; congruence].
Qed.

Lemma getitem_raise {A : Type} (l : list A) (i : nat) (e : exn) :
  getitem l i = Raise e -> e = IndexError.
Proof. unfold getitem. destruct (nth_error l i); congruence. Qed.

Lemma getitem_last_raise {A : Type} (l : list A) (e : exn) :
  getitem_last l = Raise e -> e = IndexError.
Proof. destruct l; simpl; congruence. Qed.

Lemma nmul_nsum_scale (k : R) (l : list npfloat) :
  nsum (map (nmul (Fin k)) l) = nmul (Fin k) (nsum l).
Proof.
  unfold nsum. induction l as [| a l IH]; cbn [map fold_right].
  - simpl. f_equal. ring.
  - now rewrite IH, nmul_nadd_distr.
Qed.

Lemma removelast_map {A B : Type} (f : A -> B) (l : list A) :
  removelast (map f l) = map f (removelast l).
Proof.
  induction l as [| a [| b l] IH]; simpl; try reflexivity.
  simpl in IH. now rewrite IH.
Qed.

Lemma tl_map {A B : Type} (f : A -> B) (l : list A) : tl (map f l) = map f (tl l).
Proof. now destruct l. Qed.

Lemma zip_with_scale (k : R) (d u v : list npfloat) :
  map (fun t => ndiv t (Fin 2))
      (zip_with nmul d
         (zip_with nadd (map (nmul (Fin k)) u) (map (nmul (Fin k)) v)))
  = map (nmul (Fin k))
        (map (fun t => ndiv t (Fin 2)) (zip_with nmul d (zip_with nadd u v))).
Proof.
  revert u v. induction d as [| a d IH]; intros [| b u] [| c v]; simpl;
    try reflexivity.
  rewrite IH. f_equal.
  destruct a, b, c; simpl; try reflexivity.
  unfold ndiv. destruct (Req_dec_T 2 0) as [E | _]; [lra |].
  f_equal. field.
Qed.

(** The trapezoidal rule is linear in the ordinates. *)
Lemma trapz_scale (k : R) (y x : list npfloat) :
  trapz (map (nmul (Fin k)) y) x = nmul (Fin k) (trapz y x).
Proof.
  unfold trapz. rewrite tl_map, removelast_map, zip_with_scale.
  apply nmul_nsum_scale.
Qed.

Lemma map_fst_combine {A B : Type} (la : list A) (lb : list B) :
  List.length la = List.length lb -> map fst (combine la lb) = la.
Proof.
  revert lb. induction la as [| a la IH]; intros [| b lb]; simpl;
    try discriminate; try reflexivity.
  intros H. injection H as H. now rewrite IH.
Qed.

Lemma map_snd_combine {A B : Type} (la : list A) (lb : list B) :
  List.length la = List.length lb -> map snd (combine la lb) = lb.
Proof.
  revert lb. induction la as [| a la IH]; intros [| b lb]; simpl;
    try discriminate; try reflexivity.
  intros H. injection H as H. now rewrite IH.
Qed.

Section Overlays.

Variable format_float : R -> string.

(** The block reads nothing of the axes but their first curve. *)
Lemma normed_PL_first_line (ax : Axes) (E_0 : npfloat) (norm index : R)
    (style : string) :
  normed_PL format_float ax E_0 norm index style
  = (l <- getitem (lines ax) 0 ;;
     normed_PL format_float (axes_of_line l) E_0 norm index style).
Proof.
  unfold normed_PL. destruct (lines ax) as [| l rest]; reflexivity.
Qed.

Lemma normed_PL_raises (ax : Axes) (E_0 : npfloat) (norm index : R)
    (style : string) (e : exn) :
  normed_PL format_float ax E_0 norm index style = Raise e ->
  e = IndexError \/ (e = ZeroDivisionError /\ index = 1).
Proof.
  unfold normed_PL. intros H.
  apply bind_raise in H. destruct H as [H | (l & _ & H)];
    [left; eapply getitem_raise; eassumption |].
  apply bind_raise in H. destruct H as [H | (l' & _ & H)];
    [left; eapply getitem_raise; eassumption |].
  apply bind_raise in H. destruct H as [H | (x0 & _ & H)];
    [left; eapply getitem_raise; eassumption |].
  apply bind_raise in H. destruct H as [H | (x1 & _ & H)];
    [left; eapply getitem_last_raise; eassumption |].
  apply bind_raise in H. destruct H as [H | (m & _ & H)]; [| discriminate].
  apply int_power_law_raises in H. tauto.
Qed.

(** What the block draws, when the first curve has a sample and the index
    is not 1. *)
Lemma normed_PL_ok (ax : Axes) (l : Line2D) (rest : list Line2D)
    (p : npfloat * npfloat) (pts : list (npfloat * npfloat))
    (E_0 : npfloat) (norm index : R) (style : string) :
  lines ax = l :: rest -> xydata l = p :: pts -> index <> 1 ->
  let x := map fst (xydata l) in
  let y := map snd (xydata l) in
  exists model_int : npfloat,
    int_power_law [fst p; last (map fst pts) (fst p)] E_0 norm index = Ok model_int
    /\ normed_PL format_float ax E_0 norm index style
       = Ok (mkLine2D
               (combine x (map (nmul (ndiv (trapz y x) model_int))
                               (power_law_array x E_0 norm index)))
               "blue" (Some style) (Some 2)
               ("model index = " ++ format_float index)).
Proof.
  intros Hl Hp Hi x y.
  rewrite int_power_law_pair by assumption.
  eexists. split; [reflexivity |].
  unfold normed_PL. rewrite Hl. simpl. subst x y. rewrite Hp. simpl.
  rewrite int_power_law_pair by assumption. reflexivity.
Qed.

End Overlays.

(** *** The script's two power laws between the energies 1 and 4 *)

Lemma Rpower_4_half : Rpower 4 (/ 2) = 2.
Proof.
  rewrite Rpower_sqrt by lra.
  replace 4 with (2 * 2) by ring. apply sqrt_square. lra.
Qed.

Lemma Rpower_4_minus_half : Rpower 4 (1 - INDEX) = / 2.
Proof.
  unfold INDEX. replace (1 - 3 / 2) with (- / 2) by field.
  now rewrite Rpower_Ropp, Rpower_4_half.
Qed.

Lemma Rpower_4_minus_INDEX : Rpower 4 (- INDEX) = / 8.
Proof.
  unfold INDEX. rewrite Rpower_Ropp. f_equal.
  replace (3 / 2) with (/ 2 * INR 3) by (simpl; field).
  rewrite <- Rpower_mult, Rpower_4_half, Rpower_pow by lra. ring.
Qed.

Lemma power_law_at_1 : power_law (Fin 1) E_REF NORM INDEX = Fin 1.
Proof.
  unfold E_REF, NORM. rewrite power_law_pos by lra. unfold spec_power_law.
  replace (1 / 1) with 1 by field. rewrite Rpower_base_1. f_equal. ring.
Qed.

Lemma power_law_at_4 : power_law (Fin 4) E_REF NORM INDEX = Fin (/ 8).
Proof.
  unfold E_REF, NORM. rewrite power_law_pos by lra. unfold spec_power_law.
  replace (4 / 1) with 4 by field. rewrite Rpower_4_minus_INDEX. f_equal. ring.
Qed.

Lemma int_power_law_1_4 : int_power_law [Fin 1; Fin 4] E_REF NORM INDEX = Ok (Fin 1).
Proof.
  unfold E_REF, NORM. rewrite int_power_law_pos by (unfold INDEX; lra).
  unfold spec_int_power_law.
  rewrite Rpower_4_minus_half, !Rpower_base_1. unfold INDEX. do 2 f_equal. field.
Qed.

Ltac eval_trapz :=
  cbv [trapz diff zip_with tl removelast map nsum fold_right
       nadd nsub nmul nlift2 fst snd xydata flat_curve];
  rewrite ?ndiv_Fin by lra.

Lemma flat_curve_trapz :
  trapz (map snd (xydata flat_curve)) (map fst (xydata flat_curve)) = Fin 3.
Proof. eval_trapz. f_equal. lra. Qed.

Lemma power_law_trapz_1_4 :
  trapz (power_law_array [Fin 1; Fin 4] E_REF NORM INDEX) [Fin 1; Fin 4]
  = Fin (27 / 16).
Proof.
  unfold power_law_array. cbn [map]. rewrite power_law_at_1, power_law_at_4.
  eval_trapz. f_equal. lra.
Qed.

Section OverlayIntegral.

Variable format_float : R -> string.

(** The curve drawn is the power law on the abscissae of the first curve,
    scaled by [plot_data_int/model_int]; the scaled analytic integral is
    [plot_data_int], and the trapezoidal integral of the curve drawn is that
    of the power law samples, scaled by the same factor. *)
Lemma normed_PL_scaled (ax : Axes) (l : Line2D) (E_0 : npfloat)
    (norm index : R) (style : string) (x_first x_last : npfloat) (t m : R) :
  getitem (lines ax) 0 = Ok l ->
  let x := map fst (xydata l) in
  let y := map snd (xydata l) in
  getitem x 0 = Ok x_first -> getitem_last x = Ok x_last ->
  trapz y x = Fin t ->
  int_power_law [x_first; x_last] E_0 norm index = Ok (Fin m) -> m <> 0 ->
  exists line : Line2D,
    normed_PL format_float ax E_0 norm index style = Ok line
    /\ map fst (xydata line) = x
    /\ map snd (xydata line)
       = map (nmul (Fin (t / m))) (power_law_array x E_0 norm index)
    /\ nmul (Fin (t / m)) (Fin m) = Fin t
    /\ trapz (map snd (xydata line)) (map fst (xydata line))
       = nmul (Fin (t / m)) (trapz (power_law_array x E_0 norm index) x).
Proof.
  intros Hl x y Hx0 Hx1 Ht Hm Hm0.
  eexists. split.
  - unfold normed_PL. rewrite Hl. cbn [bind]. fold x y.
    rewrite Hx0, Hx1. cbn [bind]. rewrite Hm. cbn [bind].
    rewrite Ht, ndiv_Fin by assumption. reflexivity.
  - cbn [xydata].
    assert (Hlen : List.length x
                   = List.length (map (nmul (Fin (t / m)))
                                      (power_law_array x E_0 norm index))).
    { unfold power_law_array. now rewrite !length_map. }
    rewrite map_fst_combine, map_snd_combine by exact Hlen.
    repeat split.
    + simpl. f_equal. field. assumption.
    + apply trapz_scale.
Qed.

End OverlayIntegral.

(** C7 as stated fails on a flat curve of height 1 over the energies 1 and
    4, with the script's constants: the curve has trapezoidal integral 3,
    the curve drawn over it has trapezoidal integral 81/16. *)
Lemma normed_PL_trapz_counterexample :
  exists line : Line2D,
    normed_PL (fun _ => "1.5"%string) (axes_of_line flat_curve)
              E_REF NORM INDEX "dotted" = Ok line
    /\ trapz (map snd (xydata flat_curve)) (map fst (xydata flat_curve)) = Fin 3
    /\ trapz (map snd (xydata line)) (map fst (xydata line)) = Fin (81 / 16)
    /\ 81 / 16 - 3 > 2.
Proof.
  destruct (normed_PL_scaled (fun _ => "1.5"%string) (axes_of_line flat_curve)
              flat_curve E_REF NORM INDEX "dotted" (Fin 1) (Fin 4) 3 1
              eq_refl eq_refl eq_refl flat_curve_trapz int_power_law_1_4)
    as (line & Hline & _ & _ & _ & Htr); [lra |].
  exists line. split; [exact Hline |]. split; [exact flat_curve_trapz |].
  split; [| lra].
  rewrite Htr.
  change (map fst (xydata flat_curve)) with [Fin 1; Fin 4].
  rewrite power_law_trapz_1_4. simpl. f_equal. lra.
Qed.

(** C7, amended: each curve drawn over a spectral panel is the power law at
    the abscissae of the curve read back, scaled by
    [plot_data_int/model_int]; so the analytic integral of the scaled power
    law over [x_first, x_last] is [plot_data_int], and the trapezoidal
    integral of the curve drawn is [plot_data_int/model_int] times the
    trapezoidal integral of the power law samples. *)
Theorem normed_PL_integral (format_float : R -> string) (ax : Axes)
    (l : Line2D) (E_0 : npfloat) (norm index : R) (style : string)
    (x_first x_last : npfloat) (plot_data_int model_int : R) :
  getitem (lines ax) 0 = Ok l ->
  getitem (map fst (xydata l)) 0 = Ok x_first ->
  getitem_last (map fst (xydata l)) = Ok x_last ->
  trapz (map snd (xydata l)) (map fst (xydata l)) = Fin plot_data_int ->
  int_power_law [x_first; x_last] E_0 norm index = Ok (Fin model_int) ->
  model_int <> 0 ->
  exists line : Line2D,
    normed_PL format_float ax E_0 norm index style = Ok line
    /\ map fst (xydata line) = map fst (xydata l)
    /\ map snd (xydata line)
       = map (nmul (Fin (plot_data_int / model_int)))
             (power_law_array (map fst (xydata l)) E_0 norm index)
    /\ nmul (Fin (plot_data_int / model_int)) (Fin model_int) = Fin plot_data_int
    /\ trapz (map snd (xydata line)) (map fst (xydata line))
       = nmul (Fin (plot_data_int / model_int))
              (trapz (power_law_array (map fst (xydata l)) E_0 norm index)
                     (map fst (xydata l))).
Proof.
  intros Hl Hx0 Hx1 Ht Hm Hm0.
  exact (normed_PL_scaled format_float ax l E_0 norm index style
           x_first x_last plot_data_int model_int Hl Hx0 Hx1 Ht Hm Hm0).
Qed.

Lemma normed_PL_integral_witness :
  exists line : Line2D,
    normed_PL (fun _ => "1.5"%string) two_curves E_REF NORM INDEX "dotted" = Ok line
    /\ map fst (xydata line) = map fst (xydata flat_curve)
    /\ map snd (xydata line)
       = map (nmul (Fin (3 / 1)))
             (power_law_array (map fst (xydata flat_curve)) E_REF NORM INDEX)
    /\ nmul (Fin (3 / 1)) (Fin 1) = Fin 3
    /\ trapz (map snd (xydata line)) (map fst (xydata line))
       = nmul (Fin (3 / 1))
              (trapz (power_law_array (map fst (xydata flat_curve)) E_REF NORM INDEX)
                     (map fst (xydata flat_curve))).
Proof.
  apply (normed_PL_integral (fun _ => "1.5"%string) two_curves flat_curve
           E_REF NORM INDEX "dotted" (Fin 1) (Fin 4) 3 1);
    [reflexivity | reflexivity | reflexivity
    | exact flat_curve_trapz | exact int_power_law_1_4 | lra].
Defined.

(** ** The spectral panels *)

Lemma axes_set_axes (fig : Figure) (i j : nat) (ax : Axes) :
  axes (set_axes fig i j ax) i j = ax.
Proof. unfold set_axes. simpl. now rewrite !Nat.eqb_refl. Qed.

Lemma axes_set_axes_other (fig : Figure) (i j : nat) (ax : Axes) (i' j' : nat) :
  ((i' =? i)%nat && (j' =? j)%nat)%bool = false ->
  axes (set_axes fig i j ax) i' j' = axes fig i' j'.
Proof. intros H. unfold set_axes. simpl. now rewrite H. Qed.

Section Panels.

Variable image_title : Cube -> R -> string.
Variable spectrum_title : Cube -> R * R -> string.
Variable spectrum_points : Cube -> R * R -> list (npfloat * npfloat).
Variable format_float : R -> string.

Lemma spectrum_panel_mismatch (row : nat) (coord : R * R)
    (c1 : Cube) (n1 : string) (c2 : Cube) (n2 : string) (fig : Figure) :
  spectrum_title c1 coord <> spectrum_title c2 coord ->
  exists fig2 : Figure,
    spectrum_panel spectrum_title spectrum_points format_float
                   row coord c1 n1 c2 n2 fig
    = (Raise (ValueError (s_error (spectrum_title c1 coord) (spectrum_title c2 coord))),
       fig2)
    /\ axes fig2 row 2
       = axes_after_spectra spectrum_title spectrum_points
                            (axes fig row 2) coord c1 n1 c2 n2.
Proof.
  intros Hne. eexists.
  unfold spectrum_panel, mbind, plot_spectrum, on_axes, get_title, check_titles.
  cbn. rewrite !Nat.eqb_refl. cbn.
  apply String.eqb_neq in Hne. rewrite Hne. cbn.
  split; [reflexivity |]. now rewrite axes_set_axes.
Qed.

Lemma spectrum_panel_match (row : nat) (coord : R * R)
    (c1 : Cube) (n1 : string) (c2 : Cube) (n2 : string) (fig : Figure) :
  spectrum_title c1 coord = spectrum_title c2 coord ->
  exists fig3 : Figure,
    spectrum_panel spectrum_title spectrum_points format_float
                   row coord c1 n1 c2 n2 fig
    = overlays format_float row fig3
    /\ axes fig3 row 2
       = axes_after_check spectrum_title spectrum_points
                          (axes fig row 2) coord c1 n1 c2 n2
    /\ (forall i j, ((i =? row)%nat && (j =? 2)%nat)%bool = false ->
        axes fig3 i j = axes fig i j).
Proof.
  intros He. eexists.
  unfold spectrum_panel, overlays, mbind, plot_spectrum, on_axes, get_title,
    check_titles, set_title.
  cbn. rewrite !Nat.eqb_refl. cbn.
  apply String.eqb_eq in He. rewrite He. cbn.
  rewrite !Nat.eqb_refl. cbn.
  split; [reflexivity |]. split; [now rewrite axes_set_axes |].
  intros i j H. now rewrite !axes_set_axes_other by exact H.
Qed.

Lemma plot_normed_PL_run (row : nat) (index : R) (style : string) (fig : Figure) :
  plot_normed_PL format_float row index style fig
  = match normed_PL format_float (axes fig row 2) E_REF NORM index style with
    | Ok l => (Ok tt, set_axes fig row 2 (ax_add_line l (axes fig row 2)))
    | Raise e => (Raise e, fig)
    end.
Proof.
  unfold plot_normed_PL, on_axes.
  destruct (normed_PL format_float (axes fig row 2) E_REF NORM index style);
    reflexivity.
Qed.

Lemma overlays_raise (row : nat) (fig fig' : Figure) (e : exn) :
  overlays format_float row fig = (Raise e, fig') -> e = IndexError.
Proof.
  unfold overlays, mbind. rewrite plot_normed_PL_run.
  destruct (normed_PL format_float (axes fig row 2) E_REF NORM INDEX "dotted")
    as [l1 | e1] eqn:E1.
  - rewrite plot_normed_PL_run.
    destruct (normed_PL _ _ E_REF NORM (INDEX + 1) "dashed") as [l2 | e2] eqn:E2.
    + unfold legend, on_axes. discriminate.
    + intros H. injection H as <- _. apply normed_PL_raises in E2.
      destruct E2 as [E2 | [_ E2]]; [assumption | unfold INDEX in E2; lra].
  - intros H. injection H as <- _. apply normed_PL_raises in E1.
    destruct E1 as [E1 | [_ E1]]; [assumption | unfold INDEX in E1; lra].
Qed.

(** From axes that hold the first cube's spectrum first, both curves drawn
    over the panel are computed from that spectrum. *)
Lemma overlays_run (row : nat) (fig : Figure) (l : Line2D) (rest : list Line2D)
    (p : npfloat * npfloat) (pts : list (npfloat * npfloat)) :
  lines (axes fig row 2) = l :: rest -> xydata l = p :: pts ->
  exists (o1 o2 : Line2D) (fig' : Figure),
    overlays format_float row fig = (Ok tt, fig')
    /\ lines (axes fig' row 2) = (l :: rest) ++ [o1; o2]
    /\ normed_PL format_float (axes_of_line l) E_REF NORM INDEX "dotted" = Ok o1
    /\ normed_PL format_float (axes_of_line l) E_REF NORM (INDEX + 1) "dashed" = Ok o2
    /\ (forall i j, ((i =? row)%nat && (j =? 2)%nat)%bool = false ->
        axes fig' i j = axes fig i j).
Proof.
  intros Hl Hp.
  destruct (normed_PL_ok format_float (axes_of_line l) l [] p pts
              E_REF NORM INDEX "dotted" eq_refl Hp) as (m1 & _ & H1);
    [unfold INDEX; lra |].
  destruct (normed_PL_ok format_float (axes_of_line l) l [] p pts
              E_REF NORM (INDEX + 1) "dashed" eq_refl Hp) as (m2 & _ & H2);
    [unfold INDEX; lra |].
  cbv zeta in H1, H2.
  eexists _, _, _. split; [| split; [| split; [exact H1 | split; [exact H2 |]]]].
  - unfold overlays, mbind. rewrite plot_normed_PL_run.
    rewrite normed_PL_first_line, Hl. cbn [getitem nth_error bind].
    rewrite H1. rewrite plot_normed_PL_run, axes_set_axes.
    rewrite normed_PL_first_line. cbn [ax_add_line lines]. rewrite Hl.
    cbn [app getitem nth_error bind]. rewrite H2.
    unfold legend, on_axes. reflexivity.
  - rewrite !axes_set_axes. cbn [ax_legend ax_add_line lines]. rewrite Hl.
    rewrite <- app_assoc. reflexivity.
  - intros i j H. now rewrite !axes_set_axes_other by exact H.
Qed.

End Panels.

Section WholeFunction.

Variable image_title : Cube -> R -> string.
Variable spectrum_title : Cube -> R * R -> string.
Variable spectrum_points : Cube -> R * R -> list (npfloat * npfloat).
Variable format_float : R -> string.

Lemma spectrum_panel_ValueError (row : nat) (coord : R * R)
    (c1 : Cube) (n1 : string) (c2 : Cube) (n2 : string) (fig fig' : Figure)
    (msg : string) :
  spectrum_panel spectrum_title spectrum_points format_float
                 row coord c1 n1 c2 n2 fig = (Raise (ValueError msg), fig') ->
  spectrum_title c1 coord <> spectrum_title c2 coord
  /\ msg = s_error (spectrum_title c1 coord) (spectrum_title c2 coord).
Proof.
  intros H.
  destruct (String.eqb_spec (spectrum_title c1 coord) (spectrum_title c2 coord))
    as [He | Hne].
  - destruct (spectrum_panel_match spectrum_title spectrum_points format_float
                row coord c1 n1 c2 n2 fig He) as (fig3 & Hrun & _ & _).
    rewrite Hrun in H. apply overlays_raise in H. discriminate H.
  - destruct (spectrum_panel_mismatch spectrum_title spectrum_points format_float
                row coord c1 n1 c2 n2 fig Hne) as (fig2 & Hrun & _).
    rewrite Hrun in H. injection H as H _. auto.
Qed.

(** The statements before the spectral panels always succeed, and leave the
    axes of the third column as they were. *)
Lemma plot_panels_run (c1 : Cube) (n1 : string) (c2 : Cube) (n2 : string)
    (fig : Figure) :
  exists figA : Figure,
    plot_panels image_title spectrum_title spectrum_points format_float
                c1 n1 c2 n2 fig
    = (spectrum_panel spectrum_title spectrum_points format_float
                      0 (0, 0) c1 n1 c2 n2 ;;;
       spectrum_panel spectrum_title spectrum_points format_float
                      1 (2, 2) c1 n1 c2 n2 ;;;
       show) figA
    /\ axes figA 0 2 = axes fig 0 2
    /\ axes figA 1 2 = axes fig 1 2.
Proof.
  eexists. split; [| split].
  - unfold plot_panels.
    unfold mbind at 1 2 3 4 5 6.
    unfold image_panel, plot_image, set_title, get_title, on_axes,
      set_size_inches, set_suptitle.
    unfold mbind at 1 2 3 4 5 6 7 8.
    cbv beta iota. reflexivity.
  - reflexivity.
  - reflexivity.
Qed.

End WholeFunction.

Section Figure.

Variable image_title : Cube -> R -> string.
Variable spectrum_title : Cube -> R * R -> string.
Variable spectrum_points : Cube -> R * R -> list (npfloat * npfloat).
Variable format_float : R -> string.

Lemma lines_after_spectra (ax : Axes) (coord : R * R)
    (c1 : Cube) (n1 : string) (c2 : Cube) (n2 : string) :
  lines (axes_after_spectra spectrum_title spectrum_points ax coord c1 n1 c2 n2)
  = lines ax ++ [spectrum_line spectrum_points c1 coord "blue" n1;
                 spectrum_line spectrum_points c2 coord "red" n2].
Proof.
  unfold axes_after_spectra. cbn [ax_set_title ax_add_line lines].
  now rewrite <- app_assoc.
Qed.

(** A spectral panel on fresh axes, when the two titles agree and the first
    cube's spectrum has a sample: the panel completes, and both curves drawn
    over it are computed from the first cube's spectrum. *)
Lemma spectrum_panel_success (row : nat) (coord : R * R)
    (c1 : Cube) (n1 : string) (c2 : Cube) (n2 : string) (fig : Figure)
    (p : npfloat * npfloat) (pts : list (npfloat * npfloat)) :
  lines (axes fig row 2) = [] ->
  spectrum_title c1 coord = spectrum_title c2 coord ->
  spectrum_points c1 coord = p :: pts ->
  exists (o1 o2 : Line2D) (fig' : Figure),
    spectrum_panel spectrum_title spectrum_points format_float
                   row coord c1 n1 c2 n2 fig = (Ok tt, fig')
    /\ lines (axes fig' row 2)
       = [spectrum_line spectrum_points c1 coord "blue" n1;
          spectrum_line spectrum_points c2 coord "red" n2; o1; o2]
    /\ normed_PL format_float
         (axes_of_line (spectrum_line spectrum_points c1 coord "blue" n1))
         E_REF NORM INDEX "dotted" = Ok o1
    /\ normed_PL format_float
         (axes_of_line (spectrum_line spectrum_points c1 coord "blue" n1))
         E_REF NORM (INDEX + 1) "dashed" = Ok o2
    /\ (forall i j, ((i =? row)%nat && (j =? 2)%nat)%bool = false ->
        axes fig' i j = axes fig i j).
Proof.
  intros Hempty He Hp.
  destruct (spectrum_panel_match spectrum_title spectrum_points format_float
              row coord c1 n1 c2 n2 fig He) as (fig3 & Hrun & Hax & Hother).
  assert (Hl : lines (axes fig3 row 2)
               = spectrum_line spectrum_points c1 coord "blue" n1
                 :: [spectrum_line spectrum_points c2 coord "red" n2]).
  { rewrite Hax. unfold axes_after_check. cbn [ax_set_title lines].
    now rewrite lines_after_spectra, Hempty. }
  destruct (overlays_run format_float row fig3 _ _ p pts Hl Hp)
    as (o1 & o2 & fig' & Ho & Hlines & H1 & H2 & Hother').
  exists o1, o2, fig'. rewrite Hrun.
  repeat split; try assumption.
  intros i j H. now rewrite Hother', Hother.
Qed.

End Figure.

(** C6 as stated fails on axes with two curves: the block reads back the
    first one, not the one plotted last, and draws over its abscissae. *)
Lemma read_back_counterexample :
  getitem_last (lines two_curves) = Ok later_curve
  /\ getitem (lines two_curves) 0 = Ok flat_curve
  /\ exists line : Line2D,
       normed_PL (fun _ => "1.5"%string) two_curves E_REF NORM INDEX "dotted"
       = Ok line
       /\ map fst (xydata line) = map fst (xydata flat_curve)
       /\ map fst (xydata line) <> map fst (xydata later_curve).
Proof.
  split; [reflexivity |]. split; [reflexivity |].
  destruct (normed_PL_scaled (fun _ => "1.5"%string) two_curves
              flat_curve E_REF NORM INDEX "dotted" (Fin 1) (Fin 4) 3 1
              eq_refl eq_refl eq_refl flat_curve_trapz int_power_law_1_4)
    as (line & Hline & Hx & _); [lra |].
  exists line. split; [exact Hline |]. split; [exact Hx |].
  rewrite Hx. simpl. intros H. injection H as H _. lra.
Qed.

(** C6, amended: in each of the two spectral panels the block that draws a
    power law reads back the curve plotted first on the panel
    ([get_lines()[0]], the spectrum of the first cube), for both curves it
    draws; the curves plotted after it are never read. *)
Theorem overlays_read_first_curve
    (image_title : Cube -> R -> string)
    (spectrum_title : Cube -> R * R -> string)
    (spectrum_points : Cube -> R * R -> list (npfloat * npfloat))
    (format_float : R -> string)
    (b1 b2 c1 c2 : Cube) (n1 n2 : string)
    (p0 p1 : npfloat * npfloat) (pts0 pts1 : list (npfloat * npfloat)) :
  normalize b1 b2 = Ok (c1, c2) ->
  spectrum_title c1 (0, 0) = spectrum_title c2 (0, 0) ->
  spectrum_title c1 (2, 2) = spectrum_title c2 (2, 2) ->
  spectrum_points c1 (0, 0) = p0 :: pts0 ->
  spectrum_points c1 (2, 2) = p1 :: pts1 ->
  (forall ax E_0 norm index style,
     normed_PL format_float ax E_0 norm index style
     = (l <- getitem (lines ax) 0 ;;
        normed_PL format_float (axes_of_line l) E_0 norm index style))
  /\ exists fig : Figure,
       plot_bg_cube_model_comparison image_title spectrum_title spectrum_points
         format_float b1 n1 b2 n2 = (Ok tt, Some fig)
       /\ drawn_from_first spectrum_points format_float fig 0 (0, 0) c1 n1 c2 n2
       /\ drawn_from_first spectrum_points format_float fig 1 (2, 2) c1 n1 c2 n2.
Proof.
  intros Hnorm He0 He1 Hp0 Hp1.
  split; [intros; apply normed_PL_first_line |].
  unfold plot_bg_cube_model_comparison. rewrite Hnorm.
  destruct (plot_panels_run image_title spectrum_title spectrum_points
              format_float c1 n1 c2 n2 subplots) as (figA & Hrun & HA0 & HA1).
  rewrite Hrun.
  destruct (spectrum_panel_success spectrum_title spectrum_points format_float
              0 (0, 0) c1 n1 c2 n2 figA p0 pts0) as
    (o1 & o2 & figB & HB & HlB & Ho1 & Ho2 & HotherB);
    [now rewrite HA0 | assumption | assumption |].
  destruct (spectrum_panel_success spectrum_title spectrum_points format_float
              1 (2, 2) c1 n1 c2 n2 figB p1 pts1) as
    (o3 & o4 & figC & HC & HlC & Ho3 & Ho4 & HotherC);
    [rewrite HotherB by reflexivity; now rewrite HA1 | assumption | assumption |].
  unfold mbind. rewrite HB, HC. unfold show.
  eexists. split; [reflexivity |]. split.
  - exists o1, o2. cbn [axes]. rewrite HotherC by reflexivity. auto.
  - exists o3, o4. cbn [axes]. auto.
Qed.

Lemma overlays_read_first_curve_witness :
  exists c1 c2 : Cube,
    normalize ones_cube target_cube = Ok (c1, c2)
    /\ exists fig : Figure,
         plot_bg_cube_model_comparison (fun _ _ => "image"%string)
           (fun _ _ => "det bin"%string) (fun _ _ => xydata flat_curve)
           (fun _ => "1.5"%string) ones_cube "true" target_cube "reco"
         = (Ok tt, Some fig)
         /\ drawn_from_first (fun _ _ => xydata flat_curve) (fun _ => "1.5"%string)
              fig 0 (0, 0) c1 "true" c2 "reco"
         /\ drawn_from_first (fun _ _ => xydata flat_curve) (fun _ => "1.5"%string)
              fig 1 (2, 2) c1 "true" c2 "reco".
Proof.
  eexists _, _. split; [reflexivity |].
  destruct (overlays_read_first_curve (fun _ _ => "image"%string)
              (fun _ _ => "det bin"%string) (fun _ _ => xydata flat_curve)
              (fun _ => "1.5"%string) ones_cube target_cube _ _ "true" "reco"
              (Fin 1, Fin 1) (Fin 1, Fin 1) [(Fin 4, Fin 1)] [(Fin 4, Fin 1)]
              eq_refl eq_refl eq_refl eq_refl eq_refl)
    as (_ & H).
  exact H.
Defined.

(** ** The check of the two titles *)

Lemma append_assoc (s1 s2 s3 : string) :
  ((s1 ++ s2) ++ s3 = s1 ++ (s2 ++ s3))%string.
Proof. induction s1 as [| a s1 IH]; simpl; [reflexivity | now rewrite IH]. Qed.

Lemma s_error_contains (t1 t2 : string) :
  contains (s_error t1 t2) t1 /\ contains (s_error t1 t2) t2.
Proof.
  split.
  - exists ("Expected same det binning, but got " ++ dquote)%string,
           (dquote ++ " and " ++ dquote ++ t2 ++ dquote)%string.
    reflexivity.
  - exists ("Expected same det binning, but got "
            ++ dquote ++ t1 ++ dquote ++ " and " ++ dquote)%string, dquote.
    unfold s_error. rewrite !append_assoc. reflexivity.
Qed.

(** What a spectral panel can raise: [IndexError], or the [ValueError] of
    its check of the titles. *)
Lemma spectrum_panel_raises
    (spectrum_title : Cube -> R * R -> string)
    (spectrum_points : Cube -> R * R -> list (npfloat * npfloat))
    (format_float : R -> string)
    (row : nat) (coord : R * R) (c1 : Cube) (n1 : string)
    (c2 : Cube) (n2 : string) (fig fig' : Figure) (e : exn) :
  spectrum_panel spectrum_title spectrum_points format_float
                 row coord c1 n1 c2 n2 fig = (Raise e, fig') ->
  e = IndexError
  \/ (spectrum_title c1 coord <> spectrum_title c2 coord
      /\ e = ValueError (s_error (spectrum_title c1 coord)
                                 (spectrum_title c2 coord))).
Proof.
  intros H.
  destruct (String.eqb_spec (spectrum_title c1 coord) (spectrum_title c2 coord))
    as [He | Hne].
  - destruct (spectrum_panel_match spectrum_title spectrum_points format_float
                row coord c1 n1 c2 n2 fig He) as (fig3 & Hrun & _ & _).
    rewrite Hrun in H. apply overlays_raise in H. now left.
  - destruct (spectrum_panel_mismatch spectrum_title spectrum_points format_float
                row coord c1 n1 c2 n2 fig Hne) as (fig2 & Hrun & _).
    rewrite Hrun in H. injection H as H _. right. split; [exact Hne |].
    now symmetry.
Qed.

(** C2: a spectral panel raises a [ValueError] if and only if the titles
    the two spectra give the axes differ, and no other exception of a panel
    is a [ValueError], subclasses included; the message holds both titles;
    at the raise the axes hold the two spectra and nothing drawn over them,
    and no legend was added; the error ends the whole function (it is its
    outcome).  The check is the script's only [raise]: an exception of the
    whole function that is a [ValueError] is either the one of a panel's
    check, or the [UnitsError] (a subclass of [ValueError]) that the unit
    conversion of line 72 lets through from astropy, before any figure is
    made. *)
Theorem spectrum_panel_value_error
    (image_title : Cube -> R -> string)
    (spectrum_title : Cube -> R * R -> string)
    (spectrum_points : Cube -> R * R -> list (npfloat * npfloat))
    (format_float : R -> string)
    (row : nat) (coord : R * R) (c1 : Cube) (n1 : string)
    (c2 : Cube) (n2 : string) (fig : Figure) :
  let t1 := spectrum_title c1 coord in
  let t2 := spectrum_title c2 coord in
  let run := spectrum_panel spectrum_title spectrum_points format_float
                            row coord c1 n1 c2 n2 fig in
  ((exists msg, fst run = Raise (ValueError msg)) <-> t1 <> t2)
  /\ (t1 <> t2 ->
      fst run = Raise (ValueError (s_error t1 t2))
      /\ contains (s_error t1 t2) t1 /\ contains (s_error t1 t2) t2
      /\ lines (axes (snd run) row 2)
         = lines (axes fig row 2)
           ++ [spectrum_line spectrum_points c1 coord "blue" n1;
               spectrum_line spectrum_points c2 coord "red" n2]
      /\ has_legend (axes (snd run) row 2) = has_legend (axes fig row 2))
  /\ (forall e, fst run = Raise e -> is_ValueError e = true ->
      t1 <> t2 /\ e = ValueError (s_error t1 t2))
  /\ (forall b1 b2 e ofig,
      plot_bg_cube_model_comparison image_title spectrum_title spectrum_points
        format_float b1 n1 b2 n2 = (Raise e, ofig) ->
      is_ValueError e = true ->
      (e = UnitsError /\ ofig = None /\ normalize b1 b2 = Raise UnitsError)
      \/ exists b1' b2' coord',
           normalize b1 b2 = Ok (b1', b2')
           /\ (coord' = (0, 0) \/ coord' = (2, 2))
           /\ spectrum_title b1' coord' <> spectrum_title b2' coord'
           /\ e = ValueError (s_error (spectrum_title b1' coord')
                                      (spectrum_title b2' coord')))
  /\ (forall b1 b2 b1' b2',
      normalize b1 b2 = Ok (b1', b2') ->
      spectrum_title b1' (0, 0) <> spectrum_title b2' (0, 0) ->
      fst (plot_bg_cube_model_comparison image_title spectrum_title
             spectrum_points format_float b1 n1 b2 n2)
      = Raise (ValueError (s_error (spectrum_title b1' (0, 0))
                                   (spectrum_title b2' (0, 0))))).
Proof.
  intros t1 t2 run. split; [| split; [| split; [| split]]].
  - split.
    + intros [msg H]. subst run.
      destruct (spectrum_panel _ _ _ _ _ _ _ _ _ _) as [r f] eqn:E.
      simpl in H. subst r.
      now apply spectrum_panel_ValueError in E.
    + intros Hne.
      destruct (spectrum_panel_mismatch spectrum_title spectrum_points
                  format_float row coord c1 n1 c2 n2 fig Hne) as (fig2 & Hrun & _).
      eexists. subst run. rewrite Hrun. reflexivity.
  - intros Hne.
    destruct (spectrum_panel_mismatch spectrum_title spectrum_points
                format_float row coord c1 n1 c2 n2 fig Hne) as (fig2 & Hrun & Hax).
    subst run. rewrite Hrun. cbn [fst snd]. rewrite Hax.
    split; [reflexivity |].
    split; [apply s_error_contains |]. split; [apply s_error_contains |].
    split; [apply lines_after_spectra | reflexivity].
  - intros e H Hve. subst run.
    destruct (spectrum_panel _ _ _ _ _ _ _ _ _ _) as [r f] eqn:E.
    simpl in H. subst r. apply spectrum_panel_raises in E.
    destruct E as [-> | E]; [discriminate Hve | exact E].
  - intros b1 b2 e ofig. unfold plot_bg_cube_model_comparison.
    destruct (normalize b1 b2) as [[b1' b2'] | e'] eqn:En.
    + destruct (plot_panels_run image_title spectrum_title spectrum_points
                  format_float b1' n1 b2' n2 subplots) as (figA & Hrun & _).
      rewrite Hrun. unfold mbind.
      destruct (spectrum_panel _ _ _ 0%nat _ _ _ _ _ figA) as [[u | e0] figB] eqn:E0.
      * destruct (spectrum_panel _ _ _ 1%nat _ _ _ _ _ figB) as [[u' | e1] figC] eqn:E1.
        -- unfold show. discriminate.
        -- intros H Hve. injection H as -> _.
           apply spectrum_panel_raises in E1.
           destruct E1 as [-> | [Hne ->]]; [discriminate Hve |].
           right. exists b1', b2', (2, 2). auto.
      * intros H Hve. injection H as -> _.
        apply spectrum_panel_raises in E0.
        destruct E0 as [-> | [Hne ->]]; [discriminate Hve |].
        right. exists b1', b2', (0, 0). auto.
    + intros H _. injection H as <- <-.
      pose proof (normalize_raise _ _ _ En) as ->. left. auto.
  - intros b1 b2 b1' b2' Hn Hne. unfold plot_bg_cube_model_comparison.
    rewrite Hn.
    destruct (plot_panels_run image_title spectrum_title spectrum_points
                format_float b1' n1 b2' n2 subplots) as (figA & Hrun & _).
    rewrite Hrun. unfold mbind.
    destruct (spectrum_panel_mismatch spectrum_title spectrum_points
                format_float 0 (0, 0) b1' n1 b2' n2 figA Hne) as (fig2 & Hp & _).
    rewrite Hp. reflexivity.
Qed.

Lemma spectrum_panel_value_error_witness :
  let run := spectrum_panel binning_title (fun _ _ => xydata flat_curve)
               (fun _ => "1.5"%string) 0 (0, 0)
               (cube_of_bins 3) "true" (cube_of_bins 5) "reco" subplots in
  fst run = Raise (ValueError (s_error "det bin: 3x3" "det bin: 5x5"))
  /\ contains (s_error "det bin: 3x3" "det bin: 5x5") "det bin: 3x3"
  /\ contains (s_error "det bin: 3x3" "det bin: 5x5") "det bin: 5x5"
  /\ lines (axes (snd run) 0 2)
     = [spectrum_line (fun _ _ => xydata flat_curve) (cube_of_bins 3) (0, 0) "blue" "true";
        spectrum_line (fun _ _ => xydata flat_curve) (cube_of_bins 5) (0, 0) "red" "reco"]
  /\ has_legend (axes (snd run) 0 2) = false.
Proof.
  apply (proj1 (proj2 (spectrum_panel_value_error (fun _ _ => "image"%string)
           binning_title (fun _ _ => xydata flat_curve) (fun _ => "1.5"%string)
           0 (0, 0) (cube_of_bins 3) "true" (cube_of_bins 5) "reco" subplots))).
  discriminate.
Defined.

(** The other [ValueError] the function can end with: two cubes whose bin
    volumes have different dimensions do not convert, the function ends with
    astropy's [UnitsError] and makes no figure. *)
Example unit_conversion_error :
  plot_bg_cube_model_comparison (fun _ _ => "image"%string)
    (fun _ _ => "det bin"%string) (fun _ _ => xydata flat_curve)
    (fun _ => "1.5"%string)
    ones_cube "true"
    (mkCube (data target_cube)
            (mkQuantityArray [[[Fin 5; Fin 5]]] (mkUnit 1 (0, 1, 0)%Z)))
    "reco"
  = (Raise UnitsError, None)
  /\ is_ValueError UnitsError = true.
Proof. split; reflexivity. Qed.

(** * Further properties of the script *)

(** ** The two helpers on positive energies *)

Lemma Rpower_lt_neg (a b c : R) :
  c < 0 -> 0 < a < b -> Rpower b c < Rpower a c.
Proof.
  intros Hc Hab.
  replace c with (- (- c)) by ring. rewrite !(Rpower_Ropp _ (- c)).
  apply Rinv_lt_contravar.
  - apply Rmult_lt_0_compat; apply Rpower_pos.
  - apply Rlt_Rpower_l; lra.
Qed.

(** [(hi^p - lo^p)/p] is positive on a proper band of positive energies. *)
Lemma power_diff_pos (lo hi p : R) :
  0 < lo < hi -> p <> 0 -> 0 < (Rpower hi p - Rpower lo p) / p.
Proof.
  intros Hb Hp. destruct (Rlt_dec 0 p) as [Hpos | Hneg].
  - apply Rdiv_lt_0_compat; [| assumption].
    pose proof (Rlt_Rpower_l lo hi p Hpos Hb). lra.
  - assert (Hp' : p < 0) by lra.
    pose proof (Rpower_lt_neg lo hi p Hp' Hb) as H.
    replace ((Rpower hi p - Rpower lo p) / p)
      with ((Rpower lo p - Rpower hi p) / (- p)) by (field; assumption).
    apply Rdiv_lt_0_compat; lra.
Qed.

Lemma spec_int_power_law_factor (lo hi E_0 norm index : R) :
  index <> 1 ->
  spec_int_power_law lo hi E_0 norm index
  = norm * ((Rpower hi (1 - index) - Rpower lo (1 - index)) / (1 - index)
            / Rpower E_0 (- index)).
Proof.
  intros Hi. unfold spec_int_power_law.
  pose proof (Rpower_pos E_0 (- index)). field. split; lra.
Qed.

Lemma spec_int_power_law_shape_pos (lo hi E_0 index : R) :
  0 < lo < hi -> index <> 1 ->
  0 < (Rpower hi (1 - index) - Rpower lo (1 - index)) / (1 - index)
      / Rpower E_0 (- index).
Proof.
  intros Hb Hi. apply Rdiv_lt_0_compat; [| apply Rpower_pos].
  apply power_diff_pos; [assumption | lra].
Qed.

(** X1: over a proper band of positive energies the integral of the power
    law has the sign of [norm], and is 0 only for [norm = 0]: the division
    by it in the normalisation of a curve is then defined. *)
Theorem int_power_law_sign (lo hi E_0 norm index : R) :
  0 < lo < hi -> 0 < E_0 -> index <> 1 ->
  exists m : R,
    int_power_law [Fin lo; Fin hi] (Fin E_0) norm index = Ok (Fin m)
    /\ (0 < norm -> 0 < m) /\ (norm < 0 -> m < 0) /\ (m = 0 <-> norm = 0).
Proof.
  intros Hb H0 Hi. eexists. split.
  - apply int_power_law_pos; lra.
  - rewrite spec_int_power_law_factor by assumption.
    pose proof (spec_int_power_law_shape_pos lo hi E_0 index Hb Hi) as Hs.
    set (s := (Rpower hi (1 - index) - Rpower lo (1 - index)) / (1 - index)
              / Rpower E_0 (- index)) in *.
    repeat split; intros; nra.
Qed.

Lemma int_power_law_sign_witness :
  exists m : R,
    int_power_law [Fin 1; Fin 4] (Fin 1) 1 (3 / 2) = Ok (Fin m)
    /\ (0 < 1 -> 0 < m) /\ (1 < 0 -> m < 0) /\ (m = 0 <-> 1 = 0).
Proof. apply (int_power_law_sign 1 4 1 1 (3 / 2)); lra. Defined.

(** X2: the integrals over two adjacent bands of positive energies add up to
    the integral over their union. *)
Theorem int_power_law_adjacent (a b c E_0 norm index : R) :
  0 < a -> 0 < b -> 0 < c -> 0 < E_0 -> index <> 1 ->
  exists m1 m2 : R,
    int_power_law [Fin a; Fin b] (Fin E_0) norm index = Ok (Fin m1)
    /\ int_power_law [Fin b; Fin c] (Fin E_0) norm index = Ok (Fin m2)
    /\ int_power_law [Fin a; Fin c] (Fin E_0) norm index = Ok (Fin (m1 + m2)).
Proof.
  intros Ha Hb Hc H0 Hi.
  rewrite !int_power_law_pos by assumption.
  do 2 eexists. split; [reflexivity |]. split; [reflexivity |].
  do 2 f_equal. unfold spec_int_power_law. ring.
Qed.

Lemma int_power_law_adjacent_witness :
  exists m1 m2 : R,
    int_power_law [Fin 1; Fin 2] (Fin 1) 1 (3 / 2) = Ok (Fin m1)
    /\ int_power_law [Fin 2; Fin 4] (Fin 1) 1 (3 / 2) = Ok (Fin m2)
    /\ int_power_law [Fin 1; Fin 4] (Fin 1) 1 (3 / 2) = Ok (Fin (m1 + m2)).
Proof. apply (int_power_law_adjacent 1 2 4 1 1 (3 / 2)); lra. Defined.

Lemma spec_power_law_pos (energy E_0 norm index : R) :
  0 < norm -> 0 < spec_power_law energy E_0 norm index.
Proof.
  intros Hn. unfold spec_power_law.
  apply Rmult_lt_0_compat; [assumption | apply Rpower_pos].
Qed.

Lemma spec_power_law_decreasing (e1 e2 E_0 norm index : R) :
  0 < e1 < e2 -> 0 < E_0 -> 0 < norm -> 0 < index ->
  spec_power_law e2 E_0 norm index < spec_power_law e1 E_0 norm index.
Proof.
  intros He H0 Hn Hi. unfold spec_power_law.
  apply Rmult_lt_compat_l; [assumption |].
  apply Rpower_lt_neg; [lra |].
  split.
  - apply Rdiv_lt_0_compat; lra.
  - unfold Rdiv. apply Rmult_lt_compat_r; [apply Rinv_0_lt_compat; lra | lra].
Qed.

(** X3: for a positive norm the power law is positive on the positive
    energies, and for a positive index it decreases strictly with the
    energy. *)
Theorem power_law_decreasing (e1 e2 E_0 norm index : R) :
  0 < e1 < e2 -> 0 < E_0 -> 0 < norm ->
  exists v1 v2 : R,
    power_law (Fin e1) (Fin E_0) norm index = Fin v1
    /\ power_law (Fin e2) (Fin E_0) norm index = Fin v2
    /\ 0 < v1 /\ 0 < v2
    /\ (0 < index -> v2 < v1)
    /\ (index = 0 -> v1 = norm /\ v2 = norm).
Proof.
  intros He H0 Hn. rewrite !power_law_pos by lra.
  do 2 eexists. split; [reflexivity |]. split; [reflexivity |].
  split; [now apply spec_power_law_pos |].
  split; [now apply spec_power_law_pos |]. split.
  - intros Hi. now apply spec_power_law_decreasing.
  - intros ->. unfold spec_power_law. rewrite Ropp_0.
    rewrite !Rpower_O by (apply Rdiv_lt_0_compat; lra). lra.
Qed.

Lemma power_law_decreasing_witness :
  exists v1 v2 : R,
    power_law (Fin 1) (Fin 1) 1 (3 / 2) = Fin v1
    /\ power_law (Fin 4) (Fin 1) 1 (3 / 2) = Fin v2
    /\ 0 < v1 /\ 0 < v2
    /\ (0 < 3 / 2 -> v2 < v1)
    /\ (3 / 2 = 0 -> v1 = 1 /\ v2 = 1).
Proof. apply (power_law_decreasing 1 4 1 1 (3 / 2)); lra. Defined.

(** X4: for a positive norm and a positive index, the integral over a proper
    band of positive energies lies strictly between the two rectangles of
    the band's width whose heights are the power law at the upper and at the
    lower end. *)
Theorem int_power_law_between_rectangles (lo hi E_0 norm index : R) :
  0 < lo < hi -> 0 < E_0 -> 0 < norm -> 0 < index -> index <> 1 ->
  exists m v_lo v_hi : R,
    int_power_law [Fin lo; Fin hi] (Fin E_0) norm index = Ok (Fin m)
    /\ power_law (Fin lo) (Fin E_0) norm index = Fin v_lo
    /\ power_law (Fin hi) (Fin E_0) norm index = Fin v_hi
    /\ v_hi * (hi - lo) < m < v_lo * (hi - lo).
Proof.
  intros Hb H0 Hn Hi Hi1.
  rewrite int_power_law_pos, !power_law_pos by lra.
  do 3 eexists. do 3 (split; [reflexivity |]).
  destruct (MVT_cor2 (fun e => spec_int_power_law lo e E_0 norm index)
                     (fun e => spec_power_law e E_0 norm index) lo hi)
    as (c & Hc & Hlc); [lra | |].
  - intros x Hx. apply spec_int_power_law_derivative; lra.
  - cbv beta in Hc.
    replace (spec_int_power_law lo lo E_0 norm index) with 0 in Hc
      by (unfold spec_int_power_law; ring).
    rewrite Rminus_0_r in Hc. rewrite Hc.
    pose proof (spec_power_law_decreasing lo c E_0 norm index) as H1.
    pose proof (spec_power_law_decreasing c hi E_0 norm index) as H2.
    assert (H1' : spec_power_law c E_0 norm index < spec_power_law lo E_0 norm index)
      by (apply H1; lra).
    assert (H2' : spec_power_law hi E_0 norm index < spec_power_law c E_0 norm index)
      by (apply H2; lra).
    split; apply Rmult_lt_compat_r; lra.
Qed.

Lemma int_power_law_between_rectangles_witness :
  exists m v_lo v_hi : R,
    int_power_law [Fin 1; Fin 4] (Fin 1) 1 (3 / 2) = Ok (Fin m)
    /\ power_law (Fin 1) (Fin 1) 1 (3 / 2) = Fin v_lo
    /\ power_law (Fin 4) (Fin 1) 1 (3 / 2) = Fin v_hi
    /\ v_hi * (4 - 1) < m < v_lo * (4 - 1).
Proof. apply (int_power_law_between_rectangles 1 4 1 1 (3 / 2)); lra. Defined.

(** ** The curve drawn over a spectrum *)

Lemma positive_energies_in (xs : list npfloat) (x : npfloat) :
  positive_energies xs -> In x xs -> exists e : R, x = Fin e /\ 0 < e.
Proof. intros H Hin. unfold positive_energies in H. rewrite Forall_forall in H. auto. Qed.

Lemma getitem_in {A : Type} (l : list A) (i : nat) (a : A) :
  getitem l i = Ok a -> In a l.
Proof.
  unfold getitem. destruct (nth_error l i) eqn:E; [| discriminate].
  intros H. injection H as <-. eapply nth_error_In; eassumption.
Qed.

Lemma getitem_last_in {A : Type} (l : list A) (a : A) :
  getitem_last l = Ok a -> In a l.
Proof.
  destruct l as [| b l]; simpl; [discriminate |].
  intros H. injection H as <-.
  destruct l as [| c l]; [now left |].
  right. rewrite (app_removelast_last b (l := c :: l)) at 2 by discriminate.
  apply in_or_app. right. now left.
Qed.

Lemma map_fst_scale_curve (k : R) (l : Line2D) :
  map fst (xydata (scale_curve k l)) = map fst (xydata l).
Proof. unfold scale_curve. cbn [xydata]. rewrite map_map. reflexivity. Qed.

Lemma map_snd_scale_curve (k : R) (l : Line2D) :
  map snd (xydata (scale_curve k l)) = map (nmul (Fin k)) (map snd (xydata l)).
Proof. unfold scale_curve. cbn [xydata]. rewrite !map_map. reflexivity. Qed.

Section CurveDrawn.

Variable format_float : R -> string.

(** One ordinate of the curve drawn does not depend on the norm or on the
    reference energy. *)
Lemma normed_ordinate_independent (lo hi e t E_0 norm index : R) :
  0 < lo < hi -> 0 < e -> 0 < E_0 -> norm <> 0 -> index <> 1 ->
  nmul (ndiv (Fin t) (Fin (spec_int_power_law lo hi E_0 norm index)))
       (power_law (Fin e) (Fin E_0) norm index)
  = nmul (ndiv (Fin t) (Fin (spec_int_power_law lo hi 1 1 index)))
         (power_law (Fin e) (Fin 1) 1 index).
Proof.
  intros Hb He H0 Hn Hi.
  pose proof (power_diff_pos lo hi (1 - index) Hb) as Hs.
  assert (Hs' : 0 < (Rpower hi (1 - index) - Rpower lo (1 - index)) / (1 - index))
    by (apply Hs; lra).
  pose proof (Rpower_pos E_0 (- index)) as HE.
  rewrite !power_law_pos by lra.
  rewrite !spec_int_power_law_factor by assumption.
  unfold spec_power_law.
  rewrite !Rpower_div_base by lra. rewrite !Rpower_base_1.
  set (s := (Rpower hi (1 - index) - Rpower lo (1 - index)) / (1 - index)) in *.
  set (E := Rpower E_0 (- index)) in *.
  set (p := Rpower e (- index)).
  rewrite !ndiv_Fin.
  - simpl. f_equal. field. repeat split; lra.
  - intros H. assert (s = 0) by (revert H; clear; intros; lra). lra.
  - intros H. apply Rmult_integral in H. destruct H as [H | H]; [lra |].
    unfold Rdiv in H. apply Rmult_integral in H. destruct H as [H | H]; [lra |].
    pose proof (Rinv_0_lt_compat E HE). lra.
Qed.

(** X5: on a curve over increasing positive energies, the curve drawn over
    it is the same for every nonzero norm and every positive reference
    energy: both cancel in the normalisation. *)
Theorem normed_PL_independent (ax : Axes) (l : Line2D) (E_0 norm index : R)
    (style : string) (lo hi t : R) :
  getitem (lines ax) 0 = Ok l ->
  positive_energies (map fst (xydata l)) ->
  getitem (map fst (xydata l)) 0 = Ok (Fin lo) ->
  getitem_last (map fst (xydata l)) = Ok (Fin hi) ->
  lo < hi ->
  trapz (map snd (xydata l)) (map fst (xydata l)) = Fin t ->
  0 < E_0 -> norm <> 0 -> index <> 1 ->
  exists line : Line2D,
    normed_PL format_float ax (Fin E_0) norm index style = Ok line
    /\ normed_PL format_float ax E_REF NORM index style = Ok line.
Proof.
  intros Hl Hpos Hx0 Hx1 Hlt Ht H0 Hn Hi.
  assert (Hlo : 0 < lo).
  { destruct (positive_energies_in _ _ Hpos (getitem_in _ _ _ Hx0))
      as (e & He & Hp). injection He as ->. exact Hp. }
  eexists. split.
  - unfold normed_PL. rewrite Hl. cbn [bind]. rewrite Hx0, Hx1. cbn [bind].
    rewrite int_power_law_pos by lra. cbn [bind]. rewrite Ht. reflexivity.
  - unfold normed_PL, E_REF, NORM. rewrite Hl. cbn [bind]. rewrite Hx0, Hx1.
    cbn [bind]. rewrite int_power_law_pos by lra. cbn [bind]. rewrite Ht.
    do 2 f_equal. f_equal. unfold power_law_array. rewrite !map_map.
    apply map_ext_in. intros x Hin.
    destruct (positive_energies_in _ _ Hpos (in_map fst _ _ Hin)) as (e & -> & He).
    symmetry. apply normed_ordinate_independent; lra.
Qed.

(** X6: multiplying the ordinates of the curve read back by a factor
    multiplies the ordinates of the curve drawn by the same factor, and
    leaves its abscissae as they are. *)
Theorem normed_PL_scales_with_data (l : Line2D) (k : R) (E_0 : npfloat)
    (norm index : R) (style : string) (x_first x_last : npfloat) (t m : R) :
  getitem (map fst (xydata l)) 0 = Ok x_first ->
  getitem_last (map fst (xydata l)) = Ok x_last ->
  trapz (map snd (xydata l)) (map fst (xydata l)) = Fin t ->
  int_power_law [x_first; x_last] E_0 norm index = Ok (Fin m) -> m <> 0 ->
  exists line line' : Line2D,
    normed_PL format_float (axes_of_line l) E_0 norm index style = Ok line
    /\ normed_PL format_float (axes_of_line (scale_curve k l)) E_0 norm index style
       = Ok line'
    /\ map fst (xydata line') = map fst (xydata line)
    /\ map snd (xydata line') = map (nmul (Fin k)) (map snd (xydata line)).
Proof.
  intros Hx0 Hx1 Ht Hm Hm0.
  destruct (normed_PL_scaled format_float (axes_of_line l) l E_0 norm index
              style x_first x_last t m eq_refl Hx0 Hx1 Ht Hm Hm0)
    as (line & Hline & Hfst & Hsnd & _).
  destruct (normed_PL_scaled format_float (axes_of_line (scale_curve k l))
              (scale_curve k l) E_0 norm index style x_first x_last (k * t) m
              eq_refl)
    as (line' & Hline' & Hfst' & Hsnd' & _); try assumption.
  - now rewrite map_fst_scale_curve.
  - now rewrite map_fst_scale_curve.
  - rewrite map_fst_scale_curve, map_snd_scale_curve, trapz_scale, Ht.
    reflexivity.
  - exists line, line'. split; [exact Hline |]. split; [exact Hline' |].
    rewrite Hfst, Hfst', Hsnd, Hsnd', map_fst_scale_curve. split; [reflexivity |].
    rewrite map_map. apply map_ext. intros v.
    destruct v as [v |]; simpl; [| reflexivity]. f_equal. field. assumption.
Qed.

(** X7: a curve with a single sample at a positive energy has a degenerate
    band: its trapezoidal integral and the integral of the power law are
    both 0, their quotient is not a number, and the block draws a curve
    whose one ordinate is not a number; nothing is raised. *)
Theorem normed_PL_single_sample (ax : Axes) (l : Line2D) (rest : list Line2D)
    (e E_0 norm index : R) (y : npfloat) (style : string) :
  lines ax = l :: rest -> xydata l = [(Fin e, y)] ->
  0 < e -> 0 < E_0 -> index <> 1 ->
  trapz (map snd (xydata l)) (map fst (xydata l)) = Fin 0
  /\ int_power_law [Fin e; Fin e] (Fin E_0) norm index = Ok (Fin 0)
  /\ normed_PL format_float ax (Fin E_0) norm index style
     = Ok (mkLine2D [(Fin e, NonFinite)] "blue" (Some style) (Some 2)
                    ("model index = " ++ format_float index)).
Proof.
  intros Hl Hxy He H0 Hi.
  assert (Hm : int_power_law [Fin e; Fin e] (Fin E_0) norm index = Ok (Fin 0)).
  { rewrite int_power_law_pos by assumption. do 2 f_equal.
    unfold spec_int_power_law. ring. }
  split; [now rewrite Hxy | split; [exact Hm |]].
  unfold normed_PL. rewrite Hl. cbn [getitem nth_error bind]. rewrite Hxy.
  cbn [map fst snd getitem nth_error getitem_last last bind].
  rewrite Hm. cbn [bind].
  change (trapz [y] [Fin e]) with (Fin 0). rewrite ndiv_zero.
  unfold power_law_array. cbn [map combine]. reflexivity.
Qed.

End CurveDrawn.

Lemma positive_energies_flat_curve : positive_energies (map fst (xydata flat_curve)).
Proof.
  repeat constructor; eexists; (split; [reflexivity | lra]).
Qed.

Lemma normed_PL_independent_witness :
  exists line : Line2D,
    normed_PL (fun _ => "1.5"%string) two_curves (Fin 3) 7 INDEX "dotted" = Ok line
    /\ normed_PL (fun _ => "1.5"%string) two_curves E_REF NORM INDEX "dotted" = Ok line.
Proof.
  apply (normed_PL_independent (fun _ => "1.5"%string) two_curves flat_curve
           3 7 INDEX "dotted" 1 4 3);
    [reflexivity | exact positive_energies_flat_curve | reflexivity | reflexivity
    | lra | exact flat_curve_trapz | lra | lra | unfold INDEX; lra].
Defined.

Lemma normed_PL_scales_with_data_witness :
  exists line line' : Line2D,
    normed_PL (fun _ => "1.5"%string) (axes_of_line flat_curve)
              E_REF NORM INDEX "dotted" = Ok line
    /\ normed_PL (fun _ => "1.5"%string) (axes_of_line (scale_curve (5 / 2) flat_curve))
                 E_REF NORM INDEX "dotted" = Ok line'
    /\ map fst (xydata line') = map fst (xydata line)
    /\ map snd (xydata line') = map (nmul (Fin (5 / 2))) (map snd (xydata line)).
Proof.
  apply (normed_PL_scales_with_data (fun _ => "1.5"%string) flat_curve (5 / 2)
           E_REF NORM INDEX "dotted" (Fin 1) (Fin 4) 3 1);
    [reflexivity | reflexivity | exact flat_curve_trapz
    | exact int_power_law_1_4 | lra].
Defined.

Lemma normed_PL_single_sample_witness :
  trapz (map snd [(Fin 2, Fin 1)]) (map fst [(Fin 2, Fin 1)]) = Fin 0
  /\ int_power_law [Fin 2; Fin 2] (Fin 1) 1 (3 / 2) = Ok (Fin 0)
  /\ normed_PL (fun _ => "1.5"%string)
       (axes_of_line (mkLine2D [(Fin 2, Fin 1)] "blue" None None "true"))
       (Fin 1) 1 (3 / 2) "dotted"
     = Ok (mkLine2D [(Fin 2, NonFinite)] "blue" (Some "dotted"%string) (Some 2)
                    ("model index = " ++ "1.5")).
Proof.
  apply (normed_PL_single_sample (fun _ => "1.5"%string)
           (axes_of_line (mkLine2D [(Fin 2, Fin 1)] "blue" None None "true"))
           (mkLine2D [(Fin 2, Fin 1)] "blue" None None "true") []
           2 1 1 (3 / 2) (Fin 1) "dotted");
    [reflexivity | reflexivity | lra | lra | lra].
Defined.

(** ** What the panels keep of the figure *)

Lemma frame_kept_refl (row : nat) (fig : Figure) : frame_kept row fig fig.
Proof. unfold frame_kept. auto. Qed.

Lemma frame_kept_trans (row : nat) (f1 f2 f3 : Figure) :
  frame_kept row f1 f2 -> frame_kept row f2 f3 -> frame_kept row f1 f3.
Proof.
  intros (A1 & B1 & C1 & D1) (A2 & B2 & C2 & D2). unfold frame_kept.
  repeat split; try congruence.
  intros i j H. now rewrite D2, D1.
Qed.

Lemma keeps_frame_mbind {A B : Type} (row : nat) (m : M A) (k : A -> M B) :
  keeps_frame row m -> (forall a, keeps_frame row (k a)) ->
  keeps_frame row (mbind m k).
Proof.
  intros Hm Hk fig. unfold mbind. specialize (Hm fig).
  destruct (m fig) as [[a | e] fig']; simpl in *.
  - eapply frame_kept_trans; [exact Hm | apply Hk].
  - exact Hm.
Qed.

Lemma keeps_frame_on_axes (row : nat) (f : Axes -> result Axes) :
  keeps_frame row (on_axes row 2 f).
Proof.
  intros fig. unfold on_axes. destruct (f (axes fig row 2)); simpl.
  - unfold frame_kept. repeat split; try reflexivity.
    intros i j H. now apply axes_set_axes_other.
  - apply frame_kept_refl.
Qed.

Lemma keeps_frame_get_title (row i j : nat) : keeps_frame row (get_title i j).
Proof. intros fig. apply frame_kept_refl. Qed.

Lemma keeps_frame_raise {A : Type} (row : nat) (e : exn) :
  keeps_frame row (@raise A e).
Proof. intros fig. apply frame_kept_refl. Qed.

Section Outcome.

Variable image_title : Cube -> R -> string.
Variable spectrum_title : Cube -> R * R -> string.
Variable spectrum_points : Cube -> R * R -> list (npfloat * npfloat).
Variable format_float : R -> string.

Lemma keeps_frame_spectrum_panel (row : nat) (coord : R * R)
    (c1 : Cube) (n1 : string) (c2 : Cube) (n2 : string) :
  keeps_frame row (spectrum_panel spectrum_title spectrum_points format_float
                                  row coord c1 n1 c2 n2).
Proof.
  unfold spectrum_panel, plot_spectrum, plot_normed_PL, legend.
  repeat (apply keeps_frame_mbind; [| intros ?]);
    try apply keeps_frame_on_axes; try apply keeps_frame_get_title.
  unfold check_titles. destruct (negb _).
  - apply keeps_frame_raise.
  - apply keeps_frame_on_axes.
Qed.

Lemma plot_panels_split (c1 : Cube) (n1 : string) (c2 : Cube) (n2 : string)
    (fig : Figure) :
  plot_panels image_title spectrum_title spectrum_points format_float
              c1 n1 c2 n2 fig
  = (spectrum_panel spectrum_title spectrum_points format_float
                    0 (0, 0) c1 n1 c2 n2 ;;;
     spectrum_panel spectrum_title spectrum_points format_float
                    1 (2, 2) c1 n1 c2 n2 ;;;
     show) (snd (images_drawn image_title c1 n1 c2 n2 fig)).
Proof.
  unfold plot_panels, images_drawn.
  unfold mbind at 1 2 3 4 5 6.
  unfold image_panel, plot_image, set_title, get_title, on_axes,
    set_size_inches, set_suptitle.
  unfold mbind. cbv beta iota. reflexivity.
Qed.

(** A spectral panel on fresh axes whose first spectrum is empty. *)
Lemma spectrum_panel_empty (row : nat) (coord : R * R)
    (c1 : Cube) (n1 : string) (c2 : Cube) (n2 : string) (fig : Figure) :
  lines (axes fig row 2) = [] ->
  spectrum_title c1 coord = spectrum_title c2 coord ->
  spectrum_points c1 coord = [] ->
  exists fig' : Figure,
    spectrum_panel spectrum_title spectrum_points format_float
                   row coord c1 n1 c2 n2 fig = (Raise IndexError, fig')
    /\ axes fig' row 2
       = axes_after_check spectrum_title spectrum_points
                          (axes fig row 2) coord c1 n1 c2 n2.
Proof.
  intros Hempty He Hp.
  destruct (spectrum_panel_match spectrum_title spectrum_points format_float
              row coord c1 n1 c2 n2 fig He) as (fig3 & Hrun & Hax & _).
  exists fig3. split; [| exact Hax].
  rewrite Hrun. unfold overlays, mbind. rewrite plot_normed_PL_run.
  rewrite normed_PL_first_line, Hax. unfold axes_after_check.
  cbn [ax_set_title lines]. rewrite lines_after_spectra, Hempty.
  cbn [app getitem nth_error bind].
  unfold normed_PL, axes_of_line, spectrum_line. cbn [lines getitem nth_error bind xydata].
  rewrite Hp. reflexivity.
Qed.

Lemma spectrum_panel_outcome (row : nat) (coord : R * R)
    (c1 : Cube) (n1 : string) (c2 : Cube) (n2 : string) (fig : Figure) :
  lines (axes fig row 2) = [] ->
  fst (spectrum_panel spectrum_title spectrum_points format_float
                      row coord c1 n1 c2 n2 fig)
  = panel_outcome spectrum_title spectrum_points coord c1 c2.
Proof.
  intros Hempty. unfold panel_outcome.
  destruct (String.eqb_spec (spectrum_title c1 coord) (spectrum_title c2 coord))
    as [He | Hne]; cbn [negb].
  - destruct (spectrum_points c1 coord) as [| p pts] eqn:Hp.
    + destruct (spectrum_panel_empty row coord c1 n1 c2 n2 fig Hempty He Hp)
        as (fig' & Hrun & _).
      now rewrite Hrun.
    + destruct (spectrum_panel_success spectrum_title spectrum_points
                  format_float row coord c1 n1 c2 n2 fig p pts Hempty He Hp)
        as (o1 & o2 & fig' & Hrun & _).
      now rewrite Hrun.
  - destruct (spectrum_panel_mismatch spectrum_title spectrum_points
                format_float row coord c1 n1 c2 n2 fig Hne) as (fig2 & Hrun & _).
    now rewrite Hrun.
Qed.

Lemma images_drawn_third_column (c1 : Cube) (n1 : string) (c2 : Cube)
    (n2 : string) (row : nat) :
  lines (axes (snd (images_drawn image_title c1 n1 c2 n2 subplots)) row 2) = [].
Proof.
  unfold images_drawn, mbind, image_panel, plot_image, set_title, get_title,
    on_axes, set_size_inches, set_suptitle. cbn.
  destruct row as [| [| row]]; reflexivity.
Qed.

(** The outcome of the whole function. *)
Lemma plot_outcome (b1 : Cube) (n1 : string) (b2 : Cube) (n2 : string) :
  fst (plot_bg_cube_model_comparison image_title spectrum_title spectrum_points
         format_float b1 n1 b2 n2)
  = expected_outcome spectrum_title spectrum_points b1 b2.
Proof.
  unfold plot_bg_cube_model_comparison, expected_outcome.
  destruct (normalize b1 b2) as [[c1 c2] | e]; [| reflexivity].
  cbn [bind fst snd]. rewrite plot_panels_split.
  set (figA := snd (images_drawn image_title c1 n1 c2 n2 subplots)).
  pose proof (spectrum_panel_outcome 0 (0, 0) c1 n1 c2 n2 figA
                (images_drawn_third_column c1 n1 c2 n2 0)) as H0.
  pose proof (keeps_frame_spectrum_panel 0 (0, 0) c1 n1 c2 n2 figA) as K0.
  unfold mbind.
  destruct (spectrum_panel _ _ _ 0%nat _ _ _ _ _ figA) as [[u | e] figB];
    cbn [fst snd] in H0, K0; rewrite <- H0; cbn [bind fst]; [| reflexivity].
  assert (HB : lines (axes figB 1 2) = []).
  { destruct K0 as (_ & _ & _ & K0). rewrite K0 by reflexivity.
    apply images_drawn_third_column. }
  pose proof (spectrum_panel_outcome 1 (2, 2) c1 n1 c2 n2 figB HB) as H1.
  destruct (spectrum_panel _ _ _ 1%nat _ _ _ _ _ figB) as [[u' | e] figC];
    cbn [fst] in H1; rewrite <- H1; [destruct u' |]; reflexivity.
Qed.

End Outcome.

Section PanelsAtTheEnd.

Variable image_title : Cube -> R -> string.
Variable spectrum_title : Cube -> R * R -> string.
Variable spectrum_points : Cube -> R * R -> list (npfloat * npfloat).
Variable format_float : R -> string.

(** The style of the curve the block draws. *)
Lemma normed_PL_style (ax : Axes) (E_0 : npfloat) (norm index : R)
    (style : string) (o : Line2D) :
  normed_PL format_float ax E_0 norm index style = Ok o ->
  color o = "blue"%string /\ linestyle o = Some style /\ linewidth o = Some 2
  /\ label o = ("model index = " ++ format_float index)%string.
Proof.
  unfold normed_PL.
  destruct (getitem (lines ax) 0) as [l |]; [| discriminate]. cbn [bind].
  destruct (getitem (map fst (xydata l)) 0) as [x0 |]; [| discriminate].
  cbn [bind].
  destruct (getitem_last (map fst (xydata l))) as [x1 |]; [| discriminate].
  cbn [bind].
  destruct (int_power_law [x0; x1] E_0 norm index) as [m |]; [| discriminate].
  cbn [bind]. intros H. injection H as <-. auto.
Qed.

(** The axes after the statements that end a panel, when both succeed. *)
Lemma overlays_axes (row : nat) (fig fig' : Figure) :
  overlays format_float row fig = (Ok tt, fig') ->
  exists o1 o2 : Line2D,
    normed_PL format_float (axes fig row 2) E_REF NORM INDEX "dotted" = Ok o1
    /\ normed_PL format_float (ax_add_line o1 (axes fig row 2))
                 E_REF NORM (INDEX + 1) "dashed" = Ok o2
    /\ axes fig' row 2
       = ax_legend (ax_add_line o2 (ax_add_line o1 (axes fig row 2))).
Proof.
  unfold overlays, mbind. rewrite plot_normed_PL_run.
  destruct (normed_PL format_float (axes fig row 2) E_REF NORM INDEX "dotted")
    as [o1 | e1] eqn:E1; [| discriminate].
  rewrite plot_normed_PL_run, axes_set_axes.
  destruct (normed_PL format_float (ax_add_line o1 (axes fig row 2))
              E_REF NORM (INDEX + 1) "dashed") as [o2 | e2] eqn:E2; [| discriminate].
  unfold legend, on_axes.
  intros H. apply (f_equal snd) in H. cbn [snd] in H. subst fig'.
  exists o1, o2. split; [reflexivity |]. split; [exact E2 |].
  now rewrite !axes_set_axes.
Qed.

(** A spectral panel that completes, on fresh axes: what its axes hold. *)
Lemma spectrum_panel_final (row : nat) (coord : R * R)
    (c1 : Cube) (n1 : string) (c2 : Cube) (n2 : string) (fig fig' : Figure) :
  lines (axes fig row 2) = [] ->
  spectrum_panel spectrum_title spectrum_points format_float
                 row coord c1 n1 c2 n2 fig = (Ok tt, fig') ->
  spectrum_title c1 coord = spectrum_title c2 coord
  /\ exists o1 o2 : Line2D,
       axes fig' row 2
       = mkAxes (spectrum_title c1 coord)
                [spectrum_line spectrum_points c1 coord "blue" n1;
                 spectrum_line spectrum_points c2 coord "red" n2; o1; o2]
                (images (axes fig row 2)) true
       /\ linestyle o1 = Some "dotted"%string
       /\ linestyle o2 = Some "dashed"%string
       /\ label o1 = ("model index = " ++ format_float INDEX)%string
       /\ label o2 = ("model index = " ++ format_float (INDEX + 1))%string
       /\ color o1 = "blue"%string /\ color o2 = "blue"%string
       /\ linewidth o1 = Some 2 /\ linewidth o2 = Some 2.
Proof.
  intros Hempty Hrun.
  destruct (String.eqb_spec (spectrum_title c1 coord) (spectrum_title c2 coord))
    as [He | Hne].
  - split; [exact He |].
    destruct (spectrum_panel_match spectrum_title spectrum_points format_float
                row coord c1 n1 c2 n2 fig He) as (fig3 & Hm & Hax & _).
    rewrite Hm in Hrun. apply overlays_axes in Hrun.
    destruct Hrun as (o1 & o2 & H1 & H2 & Hfin).
    exists o1, o2. apply normed_PL_style in H1, H2.
    destruct H1 as (A1 & B1 & C1 & D1). destruct H2 as (A2 & B2 & C2 & D2).
    split; [| repeat split; assumption].
    rewrite Hfin, Hax. unfold axes_after_check, axes_after_spectra.
    unfold ax_legend, ax_add_line, ax_set_title.
    cbn [title lines images has_legend]. rewrite Hempty. reflexivity.
  - destruct (spectrum_panel_mismatch spectrum_title spectrum_points format_float
                row coord c1 n1 c2 n2 fig Hne) as (fig2 & Hm & _).
    rewrite Hm in Hrun. discriminate Hrun.
Qed.

End PanelsAtTheEnd.

(** ** The outcome of the function and the figure it leaves *)

(** X8: on fresh axes, when the two titles agree but the spectrum of the
    first cube has no sample, the panel raises [IndexError] (the read-back
    of the first abscissa); the axes then hold the two spectra under the
    confirmed title, no curve drawn over them and no legend. *)
Theorem spectrum_panel_empty_spectrum
    (spectrum_title : Cube -> R * R -> string)
    (spectrum_points : Cube -> R * R -> list (npfloat * npfloat))
    (format_float : R -> string)
    (row : nat) (coord : R * R) (c1 : Cube) (n1 : string)
    (c2 : Cube) (n2 : string) (fig : Figure) :
  lines (axes fig row 2) = [] ->
  spectrum_title c1 coord = spectrum_title c2 coord ->
  spectrum_points c1 coord = [] ->
  let run := spectrum_panel spectrum_title spectrum_points format_float
                            row coord c1 n1 c2 n2 fig in
  fst run = Raise IndexError
  /\ axes (snd run) row 2
     = mkAxes (spectrum_title c1 coord)
              [spectrum_line spectrum_points c1 coord "blue" n1;
               spectrum_line spectrum_points c2 coord "red" n2]
              (images (axes fig row 2)) (has_legend (axes fig row 2)).
Proof.
  intros Hempty He Hp run.
  destruct (spectrum_panel_empty spectrum_title spectrum_points format_float
              row coord c1 n1 c2 n2 fig Hempty He Hp) as (fig' & Hrun & Hax).
  subst run. rewrite Hrun. cbn [fst snd]. split; [reflexivity |].
  rewrite Hax. unfold axes_after_check, axes_after_spectra,
    ax_add_line, ax_set_title.
  cbn [title lines images has_legend]. rewrite Hempty. reflexivity.
Qed.

Lemma spectrum_panel_empty_spectrum_witness :
  let run := spectrum_panel (fun _ _ => "det bin"%string) (fun _ _ => [])
               (fun _ => "1.5"%string) 0 (0, 0) ones_cube "true"
               target_cube "reco" subplots in
  fst run = Raise IndexError
  /\ axes (snd run) 0 2
     = mkAxes "det bin"
              [spectrum_line (fun _ _ => []) ones_cube (0, 0) "blue" "true";
               spectrum_line (fun _ _ => []) target_cube (0, 0) "red" "reco"]
              [] false.
Proof.
  apply (spectrum_panel_empty_spectrum (fun _ _ => "det bin"%string)
           (fun _ _ => []) (fun _ => "1.5"%string) 0 (0, 0)
           ones_cube "true" target_cube "reco" subplots);
    reflexivity.
Defined.

Lemma panel_outcome_cases (spectrum_title : Cube -> R * R -> string)
    (spectrum_points : Cube -> R * R -> list (npfloat * npfloat))
    (coord : R * R) (c1 c2 : Cube) :
  (panel_outcome spectrum_title spectrum_points coord c1 c2 = Ok tt
   /\ spectrum_title c1 coord = spectrum_title c2 coord
   /\ spectrum_points c1 coord <> [])
  \/ (panel_outcome spectrum_title spectrum_points coord c1 c2 = Raise IndexError
      /\ spectrum_title c1 coord = spectrum_title c2 coord
      /\ spectrum_points c1 coord = [])
  \/ (panel_outcome spectrum_title spectrum_points coord c1 c2
      = Raise (ValueError (s_error (spectrum_title c1 coord)
                                   (spectrum_title c2 coord)))
      /\ spectrum_title c1 coord <> spectrum_title c2 coord).
Proof.
  unfold panel_outcome.
  destruct (String.eqb_spec (spectrum_title c1 coord) (spectrum_title c2 coord))
    as [He | Hne]; cbn [negb].
  - destruct (spectrum_points c1 coord); [right; left | left];
      repeat split; try assumption. discriminate.
  - right. right. auto.
Qed.

(** X9: the outcome of the whole function is decided, in this order, by the
    unit conversion ([UnitsError], and then no figure is made), and for the
    panel at (0, 0) degrees and then the one at (2, 2) degrees by the check
    of the titles ([ValueError]) and by whether the first cube's spectrum
    has a sample ([IndexError] if not).  It never raises
    [ZeroDivisionError]: neither index the script uses is 1. *)
Theorem plot_outcome_decided
    (image_title : Cube -> R -> string)
    (spectrum_title : Cube -> R * R -> string)
    (spectrum_points : Cube -> R * R -> list (npfloat * npfloat))
    (format_float : R -> string)
    (b1 : Cube) (n1 : string) (b2 : Cube) (n2 : string) :
  let run := plot_bg_cube_model_comparison image_title spectrum_title
               spectrum_points format_float b1 n1 b2 n2 in
  fst run = expected_outcome spectrum_title spectrum_points b1 b2
  /\ (snd run = None <-> fst run = Raise UnitsError)
  /\ fst run <> Raise ZeroDivisionError.
Proof.
  intros run.
  assert (Hout : fst run = expected_outcome spectrum_title spectrum_points b1 b2)
    by apply plot_outcome.
  split; [exact Hout |].
  rewrite Hout. subst run.
  unfold plot_bg_cube_model_comparison, expected_outcome.
  destruct (normalize b1 b2) as [[c1 c2] | e] eqn:En; cbn [bind fst snd].
  - destruct (plot_panels _ _ _ _ _ _ _ _ subplots) as [r fig]. cbn [snd].
    destruct (panel_outcome_cases spectrum_title spectrum_points (0, 0) c1 c2)
      as [(H0 & _) | [(H0 & _) | (H0 & _)]]; rewrite H0; cbn [bind];
      try (split; [split; discriminate | discriminate]).
    destruct (panel_outcome_cases spectrum_title spectrum_points (2, 2) c1 c2)
      as [(H1 & _) | [(H1 & _) | (H1 & _)]]; rewrite H1;
      split; try split; discriminate.
  - apply normalize_raise in En. subst e.
    split; [split; reflexivity | discriminate].
Qed.

Section FigureLeft.

Variable image_title : Cube -> R -> string.
Variable spectrum_title : Cube -> R * R -> string.
Variable spectrum_points : Cube -> R * R -> list (npfloat * npfloat).
Variable format_float : R -> string.

(** How the figure of an outcome came about: the images, then the panel of
    row 0, then (if that one completed) the panel of row 1, then (if that
    one completed too) the display. *)
Lemma plot_figure_cases (b1 : Cube) (n1 : string) (b2 : Cube) (n2 : string)
    (r : result NoneType) (fig : Figure) :
  plot_bg_cube_model_comparison image_title spectrum_title spectrum_points
    format_float b1 n1 b2 n2 = (r, Some fig) ->
  exists (c1 c2 : Cube) (figB : Figure),
    normalize b1 b2 = Ok (c1, c2)
    /\ let figA := snd (images_drawn image_title c1 n1 c2 n2 subplots) in
       let panel := spectrum_panel spectrum_title spectrum_points format_float in
       (exists e, panel 0%nat (0, 0) c1 n1 c2 n2 figA = (Raise e, figB)
                  /\ r = Raise e /\ fig = figB)
       \/ (panel 0%nat (0, 0) c1 n1 c2 n2 figA = (Ok tt, figB)
           /\ exists figC,
                (exists e, panel 1%nat (2, 2) c1 n1 c2 n2 figB = (Raise e, figC)
                           /\ r = Raise e /\ fig = figC)
                \/ (panel 1%nat (2, 2) c1 n1 c2 n2 figB = (Ok tt, figC)
                    /\ r = Ok tt
                    /\ fig = mkFigure (size_inches figC) (suptitle figC)
                                      (axes figC) true)).
Proof.
  unfold plot_bg_cube_model_comparison.
  destruct (normalize b1 b2) as [[c1 c2] | e]; [| discriminate].
  rewrite plot_panels_split. unfold mbind.
  destruct (spectrum_panel _ _ _ 0%nat _ _ _ _ _ _) as [[[] | e] figB] eqn:E0.
  - destruct (spectrum_panel _ _ _ 1%nat _ _ _ _ _ figB) as [[[] | e] figC] eqn:E1.
    + unfold show. intros H. injection H as <- <-.
      exists c1, c2, figB. split; [reflexivity |]. right.
      split; [exact E0 |]. exists figC. right. rewrite E1. auto.
    + intros H. injection H as <- <-.
      exists c1, c2, figB. split; [reflexivity |]. right.
      split; [exact E0 |]. exists figC. left. exists e. rewrite E1. auto.
  - intros H. injection H as <- <-.
    exists c1, c2, figB. split; [reflexivity |]. left. exists e. rewrite E0. auto.
Qed.

Lemma images_drawn_figure (c1 : Cube) (n1 : string) (c2 : Cube) (n2 : string) :
  let figA := snd (images_drawn image_title c1 n1 c2 n2 subplots) in
  size_inches figA = Some (30, 15)
  /\ suptitle figA = group_info
  /\ shown figA = false
  /\ axes figA 0 0 = mkAxes (n1 ++ ": " ++ image_title c1 1) [] [(c1, 1)] false
  /\ axes figA 1 0 = mkAxes (n1 ++ ": " ++ image_title c1 10) [] [(c1, 10)] false
  /\ axes figA 0 1 = mkAxes (n2 ++ ": " ++ image_title c2 1) [] [(c2, 1)] false
  /\ axes figA 1 1 = mkAxes (n2 ++ ": " ++ image_title c2 10) [] [(c2, 10)] false.
Proof.
  unfold images_drawn, mbind, image_panel, plot_image, set_title, get_title,
    on_axes, set_size_inches, set_suptitle. cbn.
  repeat split.
Qed.

End FigureLeft.

(** X10: whenever the function leaves a figure, whatever its outcome, the
    figure has the size 30 by 15 and the group title, and each of the four
    image panels holds the one image of its cube at its energy (1 and 10 TeV
    down the rows, the first and the second cube along the columns) under
    the title that [plot_image] gave, prefixed by the cube's name; and the
    figure is displayed exactly when the function returns. *)
Theorem images_panels_drawn
    (image_title : Cube -> R -> string)
    (spectrum_title : Cube -> R * R -> string)
    (spectrum_points : Cube -> R * R -> list (npfloat * npfloat))
    (format_float : R -> string)
    (b1 : Cube) (n1 : string) (b2 : Cube) (n2 : string)
    (r : result NoneType) (fig : Figure) :
  plot_bg_cube_model_comparison image_title spectrum_title spectrum_points
    format_float b1 n1 b2 n2 = (r, Some fig) ->
  exists c1 c2 : Cube,
    normalize b1 b2 = Ok (c1, c2)
    /\ size_inches fig = Some (30, 15)
    /\ suptitle fig = group_info
    /\ axes fig 0 0 = mkAxes (n1 ++ ": " ++ image_title c1 1) [] [(c1, 1)] false
    /\ axes fig 1 0 = mkAxes (n1 ++ ": " ++ image_title c1 10) [] [(c1, 10)] false
    /\ axes fig 0 1 = mkAxes (n2 ++ ": " ++ image_title c2 1) [] [(c2, 1)] false
    /\ axes fig 1 1 = mkAxes (n2 ++ ": " ++ image_title c2 10) [] [(c2, 10)] false
    /\ (shown fig = true <-> r = Ok tt).
Proof.
  intros Hrun.
  destruct (plot_figure_cases image_title spectrum_title spectrum_points
              format_float b1 n1 b2 n2 r fig Hrun) as (c1 & c2 & figB & Hn & Hcases).
  exists c1, c2. split; [exact Hn |].
  destruct (images_drawn_figure image_title c1 n1 c2 n2)
    as (HA1 & HA2 & HA3 & HA4 & HA5 & HA6 & HA7).
  cbv zeta in Hcases, HA1, HA2, HA3, HA4, HA5, HA6, HA7.
  set (figA := snd (images_drawn image_title c1 n1 c2 n2 subplots)) in *.
  pose proof (keeps_frame_spectrum_panel spectrum_title spectrum_points
                format_float 0 (0, 0) c1 n1 c2 n2 figA) as K0.
  assert (KB : forall r0, spectrum_panel spectrum_title spectrum_points
                 format_float 0 (0, 0) c1 n1 c2 n2 figA = (r0, figB) ->
               frame_kept 0 figA figB).
  { intros r0 E. rewrite E in K0. exact K0. }
  destruct Hcases as [(e & E0 & -> & ->) | (E0 & figC & Hc)].
  - destruct (KB _ E0) as (K1 & K2 & K3 & K4).
    rewrite K1, K2, K3, !K4 by reflexivity.
    repeat (split; [assumption |]). rewrite HA3. split; discriminate.
  - destruct (KB _ E0) as (K1 & K2 & K3 & K4).
    pose proof (keeps_frame_spectrum_panel spectrum_title spectrum_points
                  format_float 1 (2, 2) c1 n1 c2 n2 figB) as K'.
    assert (KC : forall r1, spectrum_panel spectrum_title spectrum_points
                   format_float 1 (2, 2) c1 n1 c2 n2 figB = (r1, figC) ->
                 frame_kept 1 figB figC).
    { intros r1 E. rewrite E in K'. exact K'. }
    destruct Hc as [(e & E1 & -> & ->) | (E1 & -> & ->)];
      destruct (KC _ E1) as (L1 & L2 & L3 & L4).
    + rewrite L1, L2, L3, !L4, K1, K2, K3, !K4 by reflexivity.
      repeat (split; [assumption |]). rewrite HA3. split; discriminate.
    + cbn [size_inches suptitle axes shown].
      rewrite L1, L2, !L4, K1, K2, !K4 by reflexivity.
      repeat (split; [assumption |]). split; reflexivity.
Qed.

(** X11: when the function returns, each spectral panel (row 0 at (0, 0)
    degrees, row 1 at (2, 2) degrees) carries the title the two spectra
    agree on and a legend, and holds four curves: the spectra of the two
    cubes, then a dotted and a dashed blue curve of width 2 labelled with
    the indices 1.5 and 2.5 as Python formats them. *)
Theorem spectral_panels_drawn
    (image_title : Cube -> R -> string)
    (spectrum_title : Cube -> R * R -> string)
    (spectrum_points : Cube -> R * R -> list (npfloat * npfloat))
    (format_float : R -> string)
    (b1 : Cube) (n1 : string) (b2 : Cube) (n2 : string) (fig : Figure)
    (row : nat) (coord : R * R) :
  plot_bg_cube_model_comparison image_title spectrum_title spectrum_points
    format_float b1 n1 b2 n2 = (Ok tt, Some fig) ->
  (row = 0%nat /\ coord = (0, 0)) \/ (row = 1%nat /\ coord = (2, 2)) ->
  exists (c1 c2 : Cube) (o1 o2 : Line2D),
    normalize b1 b2 = Ok (c1, c2)
    /\ spectrum_title c1 coord = spectrum_title c2 coord
    /\ axes fig row 2
       = mkAxes (spectrum_title c1 coord)
                [spectrum_line spectrum_points c1 coord "blue" n1;
                 spectrum_line spectrum_points c2 coord "red" n2; o1; o2]
                [] true
    /\ linestyle o1 = Some "dotted"%string
    /\ linestyle o2 = Some "dashed"%string
    /\ label o1 = ("model index = " ++ format_float INDEX)%string
    /\ label o2 = ("model index = " ++ format_float (INDEX + 1))%string
    /\ color o1 = "blue"%string /\ color o2 = "blue"%string
    /\ linewidth o1 = Some 2 /\ linewidth o2 = Some 2.
Proof.
  intros Hrun Hrow.
  destruct (plot_figure_cases image_title spectrum_title spectrum_points
              format_float b1 n1 b2 n2 (Ok tt) fig Hrun)
    as (c1 & c2 & figB & Hn & Hcases).
  cbv zeta in Hcases.
  set (figA := snd (images_drawn image_title c1 n1 c2 n2 subplots)) in *.
  destruct Hcases as [(e & _ & He & _) | (E0 & figC & Hc)]; [discriminate |].
  destruct Hc as [(e & _ & He & _) | (E1 & _ & ->)]; [discriminate |].
  pose proof (images_drawn_third_column image_title c1 n1 c2 n2 0) as HA0.
  pose proof (images_drawn_third_column image_title c1 n1 c2 n2 1) as HA1.
  fold figA in HA0, HA1.
  pose proof (keeps_frame_spectrum_panel spectrum_title spectrum_points
                format_float 0 (0, 0) c1 n1 c2 n2 figA) as K0.
  rewrite E0 in K0. destruct K0 as (_ & _ & _ & K0).
  pose proof (keeps_frame_spectrum_panel spectrum_title spectrum_points
                format_float 1 (2, 2) c1 n1 c2 n2 figB) as K1.
  rewrite E1 in K1. destruct K1 as (_ & _ & _ & K1). cbn [snd] in K0, K1.
  assert (HB1 : lines (axes figB 1 2) = [])
    by (rewrite K0 by reflexivity; exact HA1).
  destruct (spectrum_panel_final spectrum_title spectrum_points format_float
              0 (0, 0) c1 n1 c2 n2 figA figB HA0 E0) as (T0 & o1 & o2 & F0 & S0).
  destruct (spectrum_panel_final spectrum_title spectrum_points format_float
              1 (2, 2) c1 n1 c2 n2 figB figC HB1 E1) as (T1 & o3 & o4 & F1 & S1).
  assert (IA : forall i, images (axes figA i 2) = []).
  { intros i. unfold figA, images_drawn, mbind, image_panel, plot_image,
      set_title, get_title, on_axes, set_size_inches, set_suptitle. cbn.
    destruct i as [| [| i]]; reflexivity. }
  exists c1, c2. cbn [axes].
  destruct Hrow as [[-> ->] | [-> ->]].
  - exists o1, o2. rewrite K1 by reflexivity. rewrite F0, IA.
    repeat (split; [first [assumption | reflexivity | apply S0] |]). apply S0.
  - exists o3, o4. rewrite F1, K0 by reflexivity. rewrite IA.
    repeat (split; [first [assumption | reflexivity | apply S1] |]). apply S1.
Qed.

Lemma plot_returns_figure
    (image_title : Cube -> R -> string)
    (spectrum_title : Cube -> R * R -> string)
    (spectrum_points : Cube -> R * R -> list (npfloat * npfloat))
    (format_float : R -> string)
    (b1 : Cube) (n1 : string) (b2 : Cube) (n2 : string) :
  fst (plot_bg_cube_model_comparison image_title spectrum_title spectrum_points
         format_float b1 n1 b2 n2) = Ok tt ->
  exists fig : Figure,
    plot_bg_cube_model_comparison image_title spectrum_title spectrum_points
      format_float b1 n1 b2 n2 = (Ok tt, Some fig).
Proof.
  unfold plot_bg_cube_model_comparison.
  destruct (normalize b1 b2) as [[c1 c2] | e]; [| discriminate].
  destruct (plot_panels _ _ _ _ _ _ _ _ subplots) as [r fig].
  cbn [fst]. intros ->. now exists fig.
Qed.

Lemma images_panels_drawn_witness :
  exists (r : result NoneType) (fig : Figure) (c1 c2 : Cube),
    plot_bg_cube_model_comparison (fun _ _ => "image"%string) binning_title
      (fun _ _ => xydata flat_curve) (fun _ => "1.5"%string)
      (cube_of_bins 3) "true" (cube_of_bins 5) "reco" = (r, Some fig)
    /\ normalize (cube_of_bins 3) (cube_of_bins 5) = Ok (c1, c2)
    /\ size_inches fig = Some (30, 15)
    /\ suptitle fig = group_info
    /\ axes fig 0 0 = mkAxes ("true" ++ ": " ++ "image") [] [(c1, 1)] false
    /\ axes fig 1 0 = mkAxes ("true" ++ ": " ++ "image") [] [(c1, 10)] false
    /\ axes fig 0 1 = mkAxes ("reco" ++ ": " ++ "image") [] [(c2, 1)] false
    /\ axes fig 1 1 = mkAxes ("reco" ++ ": " ++ "image") [] [(c2, 10)] false
    /\ (shown fig = true <-> r = Ok tt).
Proof.
  eexists _, _.
  assert (Hrun : plot_bg_cube_model_comparison (fun _ _ => "image"%string)
            binning_title (fun _ _ => xydata flat_curve) (fun _ => "1.5"%string)
            (cube_of_bins 3) "true" (cube_of_bins 5) "reco" = (_, Some _))
    by reflexivity.
  destruct (images_panels_drawn _ _ _ _ _ _ _ _ _ _ Hrun) as (c1 & c2 & H).
  exists c1, c2. split; [exact Hrun | exact H].
Defined.

Lemma spectral_panels_drawn_witness :
  exists (fig : Figure) (c1 c2 : Cube) (o1 o2 : Line2D),
    plot_bg_cube_model_comparison (fun _ _ => "image"%string)
      (fun _ _ => "det bin"%string) (fun _ _ => xydata flat_curve)
      (fun _ => "1.5"%string) ones_cube "true" target_cube "reco"
    = (Ok tt, Some fig)
    /\ normalize ones_cube target_cube = Ok (c1, c2)
    /\ axes fig 0 2
       = mkAxes "det bin"
                [spectrum_line (fun _ _ => xydata flat_curve) c1 (0, 0) "blue" "true";
                 spectrum_line (fun _ _ => xydata flat_curve) c2 (0, 0) "red" "reco";
                 o1; o2]
                [] true
    /\ linestyle o1 = Some "dotted"%string
    /\ linestyle o2 = Some "dashed"%string.
Proof.
  destruct (plot_returns_figure (fun _ _ => "image"%string)
              (fun _ _ => "det bin"%string) (fun _ _ => xydata flat_curve)
              (fun _ => "1.5"%string) ones_cube "true" target_cube "reco")
    as [fig Hfig]; [rewrite plot_outcome; reflexivity |].
  destruct (spectral_panels_drawn _ _ _ _ _ _ _ _ fig 0%nat (0, 0) Hfig
              (or_introl (conj eq_refl eq_refl)))
    as (c1 & c2 & o1 & o2 & Hn & _ & Hax & Hd1 & Hd2 & _).
  exists fig, c1, c2, o1, o2. auto.
Defined.

(** ** Normalising twice *)

Lemma map3_map3 (f g : npfloat -> npfloat) (a : array3) :
  map3 g (map3 f a) = map3 (fun x => g (f x)) a.
Proof.
  unfold map3. rewrite map_map. apply map_ext. intros l.
  rewrite map_map. apply map_ext. intros l'. apply map_map.
Qed.

Lemma map3_ext (f g : npfloat -> npfloat) (a : array3) :
  (forall x, f x = g x) -> map3 f a = map3 g a.
Proof.
  intros H. unfold map3. apply map_ext. intros l. apply map_ext. intros l'.
  now apply map_ext.
Qed.

(** X12: once the first cube is rescaled to the second, rescaling it again
    changes nothing but for the rounding of doubles, which the reals of this
    file leave out: over the reals the integral is already that of the
    second cube, the factor is 1 and the data and the unit stay.  (The
    integrals are numbers other than 0 and the units have positive
    scales.) *)
Theorem rescale_idempotent (c1 c2 : Cube) (I1 I2 : R) :
  value (integral c1) = Fin I1 -> I1 <> 0 ->
  value (integral c2) = Fin I2 -> I2 <> 0 ->
  0 < scale (aunit (data c1)) -> 0 < scale (aunit (bin_volume c1)) ->
  0 < scale (aunit (data c2)) -> 0 < scale (aunit (bin_volume c2)) ->
  value (quantity_div (integral c2) (integral (rescale c1 c2))) = Fin 1
  /\ rescale (rescale c1 c2) c2 = rescale c1 c2.
Proof.
  intros H1 HI1 H2 HI2 Hs1 Hv1 Hs2 Hv2.
  destruct c1 as [[d1 [s1 p1]] [v1 [sv1 q1]]].
  destruct c2 as [[d2 [s2 p2]] [v2 [sv2 q2]]].
  cbv [integral value data bin_volume values aunit scale powers]
    in H1, H2, Hs1, Hv1, Hs2, Hv2.
  cbv [rescale set_data quantity_imul quantity_div integral unit_mul unit_div
       value unit data bin_volume values aunit scale powers].
  rewrite H1, H2. rewrite (ndiv_Fin I2 I1) by assumption.
  rewrite weighted_sum_scale, H1. cbn [nmul nlift2].
  assert (Hr : I2 / I1 * I1 = I2) by (field; assumption).
  rewrite Hr, ndiv_Fin by assumption.
  replace (I2 / I2) with 1 by (field; assumption).
  split; [reflexivity |].
  f_equal. f_equal.
  - rewrite map3_map3. apply map3_ext. intros [x |]; simpl; [| reflexivity].
    f_equal. ring.
  - f_equal.
    + field. repeat split; lra.
    + destruct p1 as [[a1 b1] e1], q1 as [[a2 b2] e2],
               p2 as [[a3 b3] e3], q2 as [[a4 b4] e4].
      simpl. f_equal; [f_equal |]; lia.
Qed.

Lemma rescale_idempotent_witness :
  value (quantity_div (integral target_cube)
                      (integral (rescale ones_cube target_cube))) = Fin 1
  /\ rescale (rescale ones_cube target_cube) target_cube
     = rescale ones_cube target_cube.
Proof.
  apply (rescale_idempotent ones_cube target_cube 10 25);
    [exact ones_cube_integral | lra | exact target_cube_integral | lra
    | simpl; lra | simpl; lra | simpl; lra | simpl; lra].
Defined.
